(** * FHEAuction: a sealed-bid auction manager over encrypted values

    Shallow embedding of the [FHEAuction] contract together with a
    plaintext-simulating model of the encrypted-arithmetic engine it calls,
    and the properties of the auction registry, of bid evaluation, of the
    grant bookkeeping and of the timeout check. *)

From Stdlib Require Import ZArith Lia.
From stdpp Require Import base gmap sets list strings.

Open Scope Z_scope.

(** ** Solidity values *)

Module Sol.

(** Largest [uint256]; [++x] on it panics with code 0x11. *)
Definition uint256_max : Z := 2 ^ 256 - 1.

(** The explicit conversion [uint64(x)] of a [uint256] keeps the low 64 bits. *)
Definition uint64 (x : Z) : Z := x mod 2 ^ 64.

Definition address := Z.

(** Why a call reverted. A reverted call leaves no trace in storage. *)
Inductive Error :=
| RequireFailed (msg : string)
| Panic (code : Z)
| InputRejected.

Inductive Result (A : Type) :=
| Ok (a : A)
| Err (e : Error).
Arguments Ok {A} a.
Arguments Err {A} e.

(** Block and message context of one call. *)
Record Env := mkEnv { msg_sender : address; block_timestamp : Z }.

End Sol.
Import Sol.

(** ** The encrypted-arithmetic engine *)

Module FHE.

(** A ciphertext handle is an opaque identifier; [0] is the handle of an
    uninitialised slot. *)
Definition handle := nat.

(** Modelled from the spec: the encrypted-arithmetic engine ([FHE.sol] and the
    coprocessor behind it are not part of the sources). The engine holds the
    value behind every handle it has issued and, per handle, the principals
    allowed to decrypt it. Handles are issued in sequence, so an issued
    handle keeps its value for ever. *)
Record Engine := mkEngine {
  ciphertexts : list Z;
  acl : gset (handle * address)
}.

Definition empty : Engine := mkEngine [] ∅.

(** The value a handle represents (what an authorised decryption returns).
    An uninitialised handle stands for zero. *)
Definition plain (e : Engine) (h : handle) : Z :=
  match h with
  | O => 0
  | S i => default 0 (ciphertexts e !! i)
  end.

Definition plainBool (e : Engine) (h : handle) : bool := negb (plain e h =? 0).

(** Issue a new handle for value [v]. *)
Definition fresh (v : Z) (e : Engine) : handle * Engine :=
  (S (length (ciphertexts e)), mkEngine (ciphertexts e ++ [v]) (acl e)).

(** [encrypt(plain)]: trivial encryption of a clear value. *)
Definition asEuint32 (v : Z) : Engine → handle * Engine := fresh v.
Definition asEuint64 (v : Z) : Engine → handle * Engine := fresh v.
Definition asEaddress (v : address) : Engine → handle * Engine := fresh v.

(** [import(externalHandle, proof)]: [verify] stands for the engine's input
    verifier; it yields the value bound to the external handle when the proof
    checks and nothing otherwise. *)
Definition fromExternal (verify : address → Z → list Z → option Z)
    (sender : address) (ext : Z) (proof : list Z) (e : Engine)
    : option (handle * Engine) :=
  match verify sender ext proof with
  | Some v => Some (fresh v e)
  | None => None
  end.

(** [compareGreater]. *)
Definition gt (a b : handle) (e : Engine) : handle * Engine :=
  fresh (Z.b2z (plain e b <? plain e a)) e.

(** [compareLessOrEqual]. *)
Definition le (a b : handle) (e : Engine) : handle * Engine :=
  fresh (Z.b2z (plain e a <=? plain e b)) e.

(** [add] on 64-bit ciphertexts wraps around. *)
Definition add (a b : handle) (e : Engine) : handle * Engine :=
  fresh ((plain e a + plain e b) mod 2 ^ 64) e.

(** [obliviousSelect]. *)
Definition select (c a b : handle) (e : Engine) : handle * Engine :=
  fresh (if plainBool e c then plain e a else plain e b) e.

(** [grantCapability]: grants only ever accumulate. *)
Definition allow (h : handle) (p : address) (e : Engine) : Engine :=
  mkEngine (ciphertexts e) ({[ (h, p) ]} ∪ acl e).

(** A handle the engine has issued (or the zero handle). *)
Definition issued (e : Engine) (h : handle) : Prop :=
  (h ≤ length (ciphertexts e))%nat.

(** [e'] is [e] after some more engine calls. *)
Definition extends (e e' : Engine) : Prop :=
  ciphertexts e `prefix_of` ciphertexts e' ∧ acl e ⊆ acl e'.

End FHE.

(** ** The contract *)

Module FHEAuction.

Import FHE.

Record Auction := mkAuction {
  name : string;
  startPrice : handle;
  highestBid : handle;
  highestBidder : handle;
  lastBidTime : handle;
  createdAt : Z;
  created : bool
}.

(** What a storage slot that was never written reads as. *)
Definition noAuction : Auction := mkAuction "" 0%nat 0%nat 0%nat 0%nat 0 false.

Inductive Event :=
| AuctionCreated (id : Z) (name : string)
| BidSubmitted (id : Z) (bidder : address).

Record State := mkState {
  auctionCount : Z;
  auctions : gmap Z Auction;
  fhe : Engine;
  events : list Event
}.

(** The contract right after deployment. *)
Definition init : State := mkState 0 ∅ FHE.empty [].

(** [auctions[id]]: a mapping reads as the zero value where nothing was stored. *)
Definition auctionAt (s : State) (id : Z) : Auction :=
  default noAuction (auctions s !! id).

(** *** Contract code as state-passing computations that may revert *)

Definition M (A : Type) : Type := State → Result (A * State).

Definition ret {A} (a : A) : M A := fun s => Ok (a, s).

Definition bind {A B} (m : M A) (k : A → M B) : M B :=
  fun s => match m s with
           | Ok (a, s') => k a s'
           | Err e => Err e
           end.

Notation "'let*' x ':=' m 'in' k" := (bind m (fun x => k))
  (at level 10, x name, m at level 100, k at level 200).
Notation "m ';;' k" := (bind m (fun _ => k))
  (at level 100, k at level 200, right associativity).

Definition require (c : bool) (msg : string) : M unit :=
  fun s => if c then Ok (tt, s) else Err (RequireFailed msg).

Definition sload {A} (f : Auction → A) (id : Z) : M A :=
  fun s => Ok (f (auctionAt s id), s).

Definition sstore (f : Auction → Auction) (id : Z) : M unit :=
  fun s => Ok (tt, mkState (auctionCount s) (<[id := f (auctionAt s id)]> (auctions s))
                           (fhe s) (events s)).

Definition engine {A} (op : Engine → A * Engine) : M A :=
  fun s => let '(a, e) := op (fhe s) in
           Ok (a, mkState (auctionCount s) (auctions s) e (events s)).

Definition grant (h : handle) (p : address) : M unit :=
  engine (fun e => (tt, allow h p e)).

Definition emit (ev : Event) : M unit :=
  fun s => Ok (tt, mkState (auctionCount s) (auctions s) (fhe s) (events s ++ [ev])).

Definition set_highestBid (h : handle) (a : Auction) : Auction :=
  mkAuction (name a) (startPrice a) h (highestBidder a) (lastBidTime a)
            (createdAt a) (created a).
Definition set_highestBidder (h : handle) (a : Auction) : Auction :=
  mkAuction (name a) (startPrice a) (highestBid a) h (lastBidTime a)
            (createdAt a) (created a).
Definition set_lastBidTime (h : handle) (a : Auction) : Auction :=
  mkAuction (name a) (startPrice a) (highestBid a) (highestBidder a) h
            (createdAt a) (created a).

Section Contract.

(** [address(this)], the identity the contract grants to itself. *)
Variable this : address.

(** The engine's verifier of caller-supplied ciphertexts. *)
Variable verify : address → Z → list Z → option Z.

Definition allowThis (h : handle) : M unit := grant h this.

(** [id = ++auctionCount] with checked arithmetic. *)
Definition nextId : M Z :=
  fun s => if auctionCount s =? uint256_max then Err (Panic 17)
           else Ok (auctionCount s + 1,
                    mkState (auctionCount s + 1) (auctions s) (fhe s) (events s)).

Definition createAuction (name : string) (startPrice : Z) (env : Env) : M Z :=
  let* id := nextId in
  let* encStart := engine (asEuint32 startPrice) in
  let encHighest := encStart in
  let* encBidder := engine (asEaddress 0) in
  let* encNow := engine (asEuint64 (uint64 (block_timestamp env))) in
  sstore (fun _ => mkAuction name encStart encHighest encBidder encNow
                             (block_timestamp env) true) id;;
  (let* h := sload FHEAuction.startPrice id in allowThis h);;
  (let* h := sload highestBid id in allowThis h);;
  (let* h := sload highestBidder id in allowThis h);;
  (let* h := sload lastBidTime id in allowThis h);;
  emit (AuctionCreated id name);;
  ret id.

Definition getAuctionInfo (id : Z) : M (string * Z) :=
  (let* c := sload created id in require c "AUCTION_NOT_FOUND");;
  let* n := sload FHEAuction.name id in
  let* t := sload createdAt id in
  ret (n, t).

Definition getEncryptedHighestBidder (id : Z) : M handle :=
  (let* c := sload created id in require c "AUCTION_NOT_FOUND");;
  sload highestBidder id.

Definition getEncryptedHighestBid (id : Z) : M handle :=
  (let* c := sload created id in require c "AUCTION_NOT_FOUND");;
  sload highestBid id.

Definition importBid (ext : Z) (proof : list Z) (env : Env) : M handle :=
  fun s => match fromExternal verify (msg_sender env) ext proof (fhe s) with
           | Some (h, e) => Ok (h, mkState (auctionCount s) (auctions s) e (events s))
           | None => Err InputRejected
           end.

Definition bid (id : Z) (inputEuint32 : Z) (inputProof : list Z) (env : Env)
    : M handle :=
  (let* c := sload created id in require c "AUCTION_NOT_FOUND");;
  let* encBid := importBid inputEuint32 inputProof env in
  let* isHighest := (let* hb := sload highestBid id in engine (gt encBid hb)) in
  (let* hb := sload highestBid id in
   let* h := engine (select isHighest encBid hb) in
   sstore (set_highestBid h) id);;
  (let* me := engine (asEaddress (msg_sender env)) in
   let* hb := sload highestBidder id in
   let* h := engine (select isHighest me hb) in
   sstore (set_highestBidder h) id);;
  (let* now := engine (asEuint64 (uint64 (block_timestamp env))) in
   let* lt := sload lastBidTime id in
   let* h := engine (select isHighest now lt) in
   sstore (set_lastBidTime h) id);;
  (let* h := sload highestBid id in allowThis h);;
  (let* h := sload highestBidder id in allowThis h);;
  (let* h := sload lastBidTime id in allowThis h);;
  grant isHighest (msg_sender env);;
  (let* h := sload highestBid id in grant h (msg_sender env));;
  (let* h := sload highestBidder id in grant h (msg_sender env));;
  (let* h := sload lastBidTime id in grant h (msg_sender env));;
  emit (BidSubmitted id (msg_sender env));;
  ret isHighest.

(** The body of [checkEnded], returning the local [deadline] next to [ended]. *)
Definition checkEndedBody (id : Z) (env : Env) : M (handle * handle) :=
  (let* c := sload created id in require c "AUCTION_NOT_FOUND");;
  let* deadline := (let* lt := sload lastBidTime id in
                    let* window := engine (asEuint64 600) in
                    engine (add lt window)) in
  let* now := engine (asEuint64 (uint64 (block_timestamp env))) in
  let* ended := engine (le deadline now) in
  grant ended (msg_sender env);;
  ret (deadline, ended).

Definition checkEnded (id : Z) (env : Env) : M handle :=
  let* r := checkEndedBody id env in ret (snd r).

(** *** Calls and transactions *)

Inductive Call :=
| CreateAuction (name : string) (startPrice : Z)
| GetAuctionInfo (id : Z)
| GetEncryptedHighestBidder (id : Z)
| GetEncryptedHighestBid (id : Z)
| Bid (id : Z) (inputEuint32 : Z) (inputProof : list Z)
| CheckEnded (id : Z).

Inductive Value :=
| VId (id : Z)
| VInfo (info : string * Z)
| VHandle (h : handle).

Definition call (c : Call) (env : Env) : M Value :=
  match c with
  | CreateAuction n p => let* r := createAuction n p env in ret (VId r)
  | GetAuctionInfo id => let* r := getAuctionInfo id in ret (VInfo r)
  | GetEncryptedHighestBidder id =>
      let* r := getEncryptedHighestBidder id in ret (VHandle r)
  | GetEncryptedHighestBid id =>
      let* r := getEncryptedHighestBid id in ret (VHandle r)
  | Bid id ext proof => let* r := bid id ext proof env in ret (VHandle r)
  | CheckEnded id => let* r := checkEnded id env in ret (VHandle r)
  end.

(** A call that reverts leaves the state as it was. *)
Definition transact (t : Env * Call) (s : State) : State :=
  match call (snd t) (fst t) s with
  | Ok (_, s') => s'
  | Err _ => s
  end.

(** The host ledger runs calls one after the other. *)
Definition run (txs : list (Env * Call)) (s : State) : State :=
  fold_left (fun s t => transact t s) txs s.

End Contract.

(** The values behind the three leader fields of auction [id]. *)
Definition leader (s : State) (id : Z) : Z * Z * Z :=
  let a := auctionAt s id in
  (plain (fhe s) (highestBid a),
   plain (fhe s) (highestBidder a),
   plain (fhe s) (lastBidTime a)).

End FHEAuction.

(** ** The leader as the specification describes it *)

Module Leader.

Import FHEAuction.

(** A bid as evaluated: its value, who sent it, and when (the 64-bit time
    the contract records). *)
Definition Offer : Type := Z * address * Z.

Definition offerValue (o : Offer) : Z := o.1.1.
Definition offerBidder (o : Offer) : address := o.1.2.
Definition offerTime (o : Offer) : Z := o.2.

(** The bids that were strictly greater than the leader at their time of
    submission, the leader starting at [leading]. *)
Fixpoint strictlyGreater (leading : Z) (bids : list Offer) : list Offer :=
  match bids with
  | [] => []
  | o :: rest =>
      if leading <? offerValue o
      then o :: strictlyGreater (offerValue o) rest
      else strictlyGreater leading rest
  end.

(** The maximum of [start] and the values of [bids]. *)
Definition maxValue (start : Z) (bids : list Offer) : Z :=
  foldr (fun o m => Z.max (offerValue o) m) start bids.

(** Who submitted the value [x] and when; [none] if no bid carries it. *)
Definition originOf (x : Z) (none : address * Z) (bids : list Offer) : address * Z :=
  match List.find (fun o => offerValue o =? x) bids with
  | Some o => (offerBidder o, offerTime o)
  | None => none
  end.

(** The leader fields the specification promises for an auction created
    with [start] at time [createdTime] after [bids] were evaluated. *)
Definition promised (start createdTime : Z) (bids : list Offer) : Z * address * Z :=
  let accepted := strictlyGreater start bids in
  let top := maxValue start accepted in
  let origin := originOf top (0, createdTime) accepted in
  (top, origin.1, origin.2).

(** One bid evaluation on the plain values, as [bid] selects them. *)
Definition settle (l : Z * address * Z) (o : Offer) : Z * address * Z :=
  if l.1.1 <? offerValue o then o else l.

Section Offers.

Variable verify : address → Z → list Z → option Z.

(** The bid on auction [id] that a call submits for evaluation, if any. *)
Definition offerOf (id : Z) (t : Env * Call) : option Offer :=
  match t.2 with
  | Bid i ext proof =>
      if i =? id then
        match verify (msg_sender t.1) ext proof with
        | Some v => Some (v, msg_sender t.1, uint64 (block_timestamp t.1))
        | None => None
        end
      else None
  | _ => None
  end.

Definition bidsOn (id : Z) (txs : list (Env * Call)) : list Offer :=
  omap (offerOf id) txs.

End Offers.

End Leader.

(** ** Specifications: what calls establish and what holds between them *)

Module Specs.

Import FHE FHEAuction.

(** [m] run from [s] returns, and its result and final state satisfy [Q]. *)
Definition wp {A} (m : M A) (Q : A → State → Prop) (s : State) : Prop :=
  match m s with
  | Ok (a, s') => Q a s'
  | Err _ => False
  end.

Definition notFound : Error := RequireFailed "AUCTION_NOT_FOUND".

(** The effect of a bid of value [v] that was accepted for evaluation. *)
Record BidPost (this : address) (env : Env) (id v : Z)
    (s : State) (isHighest : handle) (s' : State) : Prop := {
  bp_flag : plainBool (fhe s') isHighest
            = (plain (fhe s) (highestBid (auctionAt s id)) <? v);
  bp_leader : leader s' id
              = if plain (fhe s) (highestBid (auctionAt s id)) <? v
                then (v, msg_sender env, uint64 (block_timestamp env))
                else leader s id;
  bp_name : name (auctionAt s' id) = name (auctionAt s id);
  bp_startPrice : startPrice (auctionAt s' id) = startPrice (auctionAt s id);
  bp_createdAt : createdAt (auctionAt s' id) = createdAt (auctionAt s id);
  bp_created : created (auctionAt s' id) = true;
  bp_count : auctionCount s' = auctionCount s;
  bp_others : ∀ id', id' ≠ id → auctions s' !! id' = auctions s !! id';
  bp_extends : extends (fhe s) (fhe s');
  bp_issued : issued (fhe s') (highestBid (auctionAt s' id))
              ∧ issued (fhe s') (highestBidder (auctionAt s' id))
              ∧ issued (fhe s') (lastBidTime (auctionAt s' id));
  bp_replaced : ¬ issued (fhe s) (highestBid (auctionAt s' id))
                ∧ ¬ issued (fhe s) (highestBidder (auctionAt s' id))
                ∧ ¬ issued (fhe s) (lastBidTime (auctionAt s' id));
  bp_acl_this : (highestBid (auctionAt s' id), this) ∈ acl (fhe s')
                ∧ (highestBidder (auctionAt s' id), this) ∈ acl (fhe s')
                ∧ (lastBidTime (auctionAt s' id), this) ∈ acl (fhe s');
  bp_acl_caller : (isHighest, msg_sender env) ∈ acl (fhe s')
                  ∧ (highestBid (auctionAt s' id), msg_sender env) ∈ acl (fhe s')
                  ∧ (highestBidder (auctionAt s' id), msg_sender env) ∈ acl (fhe s')
                  ∧ (lastBidTime (auctionAt s' id), msg_sender env) ∈ acl (fhe s');
  bp_events : events s' = events s ++ [BidSubmitted id (msg_sender env)]
}.

(** The effect of creating an auction. *)
Record CreatePost (this : address) (env : Env) (n : string) (p : Z)
    (s : State) (id : Z) (s' : State) : Prop := {
  cp_room : auctionCount s ≠ uint256_max;
  cp_id : id = auctionCount s + 1;
  cp_count : auctionCount s' = auctionCount s + 1;
  cp_others : ∀ id', id' ≠ id → auctions s' !! id' = auctions s !! id';
  cp_name : name (auctionAt s' id) = n;
  cp_createdAt : createdAt (auctionAt s' id) = block_timestamp env;
  cp_created : created (auctionAt s' id) = true;
  cp_same : highestBid (auctionAt s' id) = startPrice (auctionAt s' id);
  cp_start : plain (fhe s') (startPrice (auctionAt s' id)) = p;
  cp_leader : leader s' id = (p, 0, uint64 (block_timestamp env));
  cp_extends : extends (fhe s) (fhe s');
  cp_issued : issued (fhe s') (startPrice (auctionAt s' id))
              ∧ issued (fhe s') (highestBid (auctionAt s' id))
              ∧ issued (fhe s') (highestBidder (auctionAt s' id))
              ∧ issued (fhe s') (lastBidTime (auctionAt s' id));
  cp_new : ¬ issued (fhe s) (startPrice (auctionAt s' id))
           ∧ ¬ issued (fhe s) (highestBidder (auctionAt s' id))
           ∧ ¬ issued (fhe s) (lastBidTime (auctionAt s' id));
  cp_acl_this : (startPrice (auctionAt s' id), this) ∈ acl (fhe s')
                ∧ (highestBid (auctionAt s' id), this) ∈ acl (fhe s')
                ∧ (highestBidder (auctionAt s' id), this) ∈ acl (fhe s')
                ∧ (lastBidTime (auctionAt s' id), this) ∈ acl (fhe s');
  cp_events : events s' = events s ++ [AuctionCreated id n]
}.

(** The effect of the timeout check; [r] is the pair of the local
    [deadline] and the returned [ended]. *)
Record CheckPost (env : Env) (id : Z)
    (s : State) (r : handle * handle) (s' : State) : Prop := {
  ce_deadline : plain (fhe s') (fst r)
                = (plain (fhe s) (lastBidTime (auctionAt s id)) + 600) mod 2 ^ 64;
  ce_ended : plainBool (fhe s') (snd r)
             = (plain (fhe s') (fst r) <=? uint64 (block_timestamp env));
  ce_auctions : auctions s' = auctions s;
  ce_count : auctionCount s' = auctionCount s;
  ce_events : events s' = events s;
  ce_extends : extends (fhe s) (fhe s');
  ce_acl : (snd r, msg_sender env) ∈ acl (fhe s')
}.

(** What holds of the contract between calls. *)
Record inv (s : State) : Prop := {
  inv_count : 0 ≤ auctionCount s ≤ uint256_max;
  inv_dense : ∀ id, created (auctionAt s id) = true ↔ 1 ≤ id ≤ auctionCount s;
  inv_issued : ∀ id,
               issued (fhe s) (startPrice (auctionAt s id))
               ∧ issued (fhe s) (highestBid (auctionAt s id))
               ∧ issued (fhe s) (highestBidder (auctionAt s id))
               ∧ issued (fhe s) (lastBidTime (auctionAt s id));
  inv_time : ∀ id,
             0 ≤ plain (fhe s) (lastBidTime (auctionAt s id)) < 2 ^ 64
}.

Section Calls.

Variable this : address.
Variable verify : address → Z → list Z → option Z.

(** What a call that returned [r] in state [s'] has done. *)
Definition CallPost (env : Env) (c : Call) (s : State) (r : Value) (s' : State)
    : Prop :=
  match c with
  | CreateAuction n p => ∃ id, r = VId id ∧ CreatePost this env n p s id s'
  | Bid id ext proof =>
      ∃ v isHighest,
        created (auctionAt s id) = true
        ∧ verify (msg_sender env) ext proof = Some v
        ∧ r = VHandle isHighest
        ∧ BidPost this env id v s isHighest s'
  | CheckEnded id =>
      ∃ deadline ended,
        created (auctionAt s id) = true
        ∧ r = VHandle ended
        ∧ CheckPost env id s (deadline, ended) s'
  | GetAuctionInfo id
  | GetEncryptedHighestBidder id
  | GetEncryptedHighestBid id => created (auctionAt s id) = true ∧ s' = s
  end.

End Calls.


End Specs.

(** ** A concrete deployment, used to run the code *)

Module Scenario.

Import FHE FHEAuction.

Definition this : address := 4096.
Definition alice : address := 10.
Definition bob : address := 11.

(** A verifier for the examples: an input with a non-empty proof is
    accepted and stands for the value written in its external handle. *)
Definition verify (sender : address) (ext : Z) (proof : list Z) : option Z :=
  match proof with
  | [] => None
  | _ => Some ext
  end.

Definition T0 : Z := 1700000000.

Definition widget : list (Env * Call) :=
  [ (mkEnv alice T0, CreateAuction "Widget" 100) ].

Definition bids : list (Env * Call) :=
  [ (mkEnv alice (T0 + 10), Bid 1 150 [1]);
    (mkEnv bob (T0 + 20), Bid 1 120 [1]);
    (mkEnv bob (T0 + 30), Bid 1 200 [1]) ].

Abbreviation afterBids := (run this verify (widget ++ bids) init).

Abbreviation afterCreate := (run this verify widget init).

Definition firstBid : Env * Call := (mkEnv alice (T0 + 10), Bid 1 150 [1]).

Abbreviation afterFirstBid := (run this verify (widget ++ [firstBid]) init).

(** An auction created in the last second that fits 64 bits. *)
Definition lastSecond : Z := 2 ^ 64 - 1.

Definition lateWidget : list (Env * Call) :=
  [ (mkEnv alice lastSecond, CreateAuction "Widget" 100) ].

Abbreviation afterLateCreate := (run this verify lateWidget init).

End Scenario.

(** ** What can be observed of the contract from outside *)

Module Observations.

Import FHE FHEAuction Specs.

(** The bidder an event names for auction [id], if it is a bid on it. *)
Definition bidderOf (id : Z) (ev : Event) : option address :=
  match ev with
  | BidSubmitted i b => if i =? id then Some b else None
  | AuctionCreated _ _ => None
  end.

(** The sender of the latest bid on [id] that the event log records. *)
Definition lastBidder (id : Z) (evs : list Event) : option address :=
  last (omap (bidderOf id) evs).

Definition creationOf (ev : Event) : option (Z * string) :=
  match ev with
  | AuctionCreated i n => Some (i, n)
  | BidSubmitted _ _ => None
  end.

(** The creations the event log records, oldest first. *)
Definition createdLog (evs : list Event) : list (Z * string) :=
  omap creationOf evs.

(** The events a call emits when it returns [r]. *)
Definition emitted (c : Call) (env : Env) (r : Value) : list Event :=
  match c, r with
  | CreateAuction n _, VId id => [AuctionCreated id n]
  | Bid id _ _, _ => [BidSubmitted id (msg_sender env)]
  | _, _ => []
  end.

(** Whether, and how, a call reverts. *)
Definition failure (verify : address → Z → list Z → option Z)
    (c : Call) (env : Env) (s : State) : option Error :=
  match c with
  | CreateAuction _ _ =>
      if auctionCount s =? uint256_max then Some (Panic 17) else None
  | GetAuctionInfo id
  | GetEncryptedHighestBidder id
  | GetEncryptedHighestBid id
  | CheckEnded id =>
      if created (auctionAt s id) then None else Some notFound
  | Bid id ext proof =>
      if created (auctionAt s id) then
        match verify (msg_sender env) ext proof with
        | Some _ => None
        | None => Some InputRejected
        end
      else Some notFound
  end.

(** The grants a bid adds: exactly seven, all on handles issued by the call. *)
Record BidGrants (this : address) (env : Env) (id : Z)
    (s : State) (isHighest : handle) (s' : State) : Prop := {
  bg_acl : ∀ x, x ∈ acl (fhe s') ↔
             x ∈ acl (fhe s)
             ∨ x = (highestBid (auctionAt s' id), this)
             ∨ x = (highestBidder (auctionAt s' id), this)
             ∨ x = (lastBidTime (auctionAt s' id), this)
             ∨ x = (isHighest, msg_sender env)
             ∨ x = (highestBid (auctionAt s' id), msg_sender env)
             ∨ x = (highestBidder (auctionAt s' id), msg_sender env)
             ∨ x = (lastBidTime (auctionAt s' id), msg_sender env);
  bg_flag_new : ¬ issued (fhe s) isHighest;
  bg_flag_issued : issued (fhe s') isHighest
}.

(** The grants a creation adds: the contract on the handles of the record. *)
Record CreateGrants (this : address) (s : State) (id : Z) (s' : State) : Prop := {
  cg_acl : ∀ x, x ∈ acl (fhe s') ↔
             x ∈ acl (fhe s)
             ∨ x = (startPrice (auctionAt s' id), this)
             ∨ x = (highestBidder (auctionAt s' id), this)
             ∨ x = (lastBidTime (auctionAt s' id), this)
}.

(** The grant a timeout check adds: the caller on the returned flag. *)
Record CheckGrants (env : Env) (s : State) (r : handle * handle) (s' : State)
    : Prop := {
  kg_acl : ∀ x, x ∈ acl (fhe s') ↔ x ∈ acl (fhe s) ∨ x = (snd r, msg_sender env);
  kg_new : ¬ issued (fhe s) (snd r);
  kg_issued : issued (fhe s') (snd r)
}.

(** What [access] asks of one auction. *)
Definition guarded (this : address) (s : State) (i : Z) : Prop :=
  ((startPrice (auctionAt s i), this) ∈ acl (fhe s)
   ∧ (highestBid (auctionAt s i), this) ∈ acl (fhe s)
   ∧ (highestBidder (auctionAt s i), this) ∈ acl (fhe s)
   ∧ (lastBidTime (auctionAt s i), this) ∈ acl (fhe s))
  ∧ (∀ p, (startPrice (auctionAt s i), p) ∈ acl (fhe s) → p = this)
  ∧ (∀ p, (highestBid (auctionAt s i), p) ∈ acl (fhe s)
          ∨ (highestBidder (auctionAt s i), p) ∈ acl (fhe s)
          ∨ (lastBidTime (auctionAt s i), p) ∈ acl (fhe s) →
          p = this ∨ lastBidder i (events s) = Some p).

(** Who may decrypt what, between calls. *)
Record access (this : address) (s : State) : Prop := {
  ac_issued : ∀ h p, (h, p) ∈ acl (fhe s) → issued (fhe s) h;
  ac_this : ∀ id, created (auctionAt s id) = true →
            (startPrice (auctionAt s id), this) ∈ acl (fhe s)
            ∧ (highestBid (auctionAt s id), this) ∈ acl (fhe s)
            ∧ (highestBidder (auctionAt s id), this) ∈ acl (fhe s)
            ∧ (lastBidTime (auctionAt s id), this) ∈ acl (fhe s);
  ac_start : ∀ id p, created (auctionAt s id) = true →
             (startPrice (auctionAt s id), p) ∈ acl (fhe s) → p = this;
  ac_leader : ∀ id p, created (auctionAt s id) = true →
              (highestBid (auctionAt s id), p) ∈ acl (fhe s)
              ∨ (highestBidder (auctionAt s id), p) ∈ acl (fhe s)
              ∨ (lastBidTime (auctionAt s id), p) ∈ acl (fhe s) →
              p = this ∨ lastBidder id (events s) = Some p
}.

End Observations.

(** ** Facts about the engine *)

Module FHEFacts.

Import FHE.

Lemma extends_refl e : extends e e.
Proof. split; [done | set_solver]. Qed.

Lemma extends_trans e1 e2 e3 : extends e1 e2 → extends e2 e3 → extends e1 e3.
Proof.
  intros [P1 A1] [P2 A2]. split; [by etrans | set_solver].
Qed.

Lemma extends_issued e e' h : extends e e' → issued e h → issued e' h.
Proof.
  intros [P _] Hh. unfold issued in *.
  apply prefix_length in P. lia.
Qed.

Lemma extends_plain e e' h : extends e e' → issued e h → plain e' h = plain e h.
Proof.
  intros [[k Hk] _] Hh. unfold issued in Hh.
  destruct h as [|i]; [done|]. cbn.
  rewrite Hk, lookup_app_l by lia. done.
Qed.

Lemma extends_plainBool e e' h :
  extends e e' → issued e h → plainBool e' h = plainBool e h.
Proof. intros. unfold plainBool. by rewrite (extends_plain e e'). Qed.

Lemma extends_acl e e' x : extends e e' → x ∈ acl e → x ∈ acl e'.
Proof. intros [_ A] Hx. set_solver. Qed.

(** What issuing a handle does. *)
Lemma fresh_spec v e h e' :
  fresh v e = (h, e') →
  plain e' h = v ∧ issued e' h ∧ ¬ issued e h ∧ extends e e' ∧ acl e' = acl e.
Proof.
  unfold fresh. intros [= <- <-]. unfold issued, extends. cbn.
  rewrite lookup_app_r, Nat.sub_diag, length_app by lia. cbn.
  repeat split; try lia; [by apply prefix_app_r | set_solver].
Qed.

Lemma allow_extends h p e : extends e (allow h p e).
Proof. split; cbn; [done | set_solver]. Qed.

Lemma allow_plain h p e x : plain (allow h p e) x = plain e x.
Proof. by destruct x. Qed.

Lemma allow_plainBool h p e x : plainBool (allow h p e) x = plainBool e x.
Proof. unfold plainBool. by rewrite allow_plain. Qed.

Lemma extends_allow_r h p e e' : extends e e' → extends e (allow h p e').
Proof. intros H. eapply extends_trans; [exact H | apply allow_extends]. Qed.

Lemma allow_issued h p e x : issued (allow h p e) x ↔ issued e x.
Proof. done. Qed.

Lemma allow_granted h p e : (h, p) ∈ acl (allow h p e).
Proof. cbn. set_solver. Qed.

Lemma b2z_plainBool e h b : plain e h = Z.b2z b → plainBool e h = b.
Proof. unfold plainBool. intros ->. by destruct b. Qed.

End FHEFacts.

(** ** A weakest-precondition calculus for contract code *)

Module Logic.

Import FHE FHEAuction Specs FHEFacts.

Lemma wp_returns {A} (m : M A) Q s :
  wp m Q s → ∃ a s', m s = Ok (a, s') ∧ Q a s'.
Proof.
  unfold wp. destruct (m s) as [[a s']|]; [eauto | done].
Qed.

Lemma wp_of_eq {A} (m : M A) (Q : A → State → Prop) s a s' :
  m s = Ok (a, s') → Q a s' → wp m Q s.
Proof. unfold wp. by intros ->. Qed.

Lemma wp_mono {A} (m : M A) (Q Q' : A → State → Prop) s :
  (∀ a s', Q a s' → Q' a s') → wp m Q s → wp m Q' s.
Proof.
  unfold wp. destruct (m s) as [[a s']|]; [auto | done].
Qed.

Lemma wp_bind {A B} (m : M A) (k : A → M B) Q s :
  wp m (fun a s' => wp (k a) Q s') s → wp (bind m k) Q s.
Proof.
  unfold wp, bind. destruct (m s) as [[a s']|]; [done | done].
Qed.

Lemma wp_ret {A} (a : A) (Q : A → State → Prop) s : Q a s → wp (ret a) Q s.
Proof. done. Qed.

Lemma wp_require (Q : unit → State → Prop) msg s :
  Q tt s → wp (require true msg) Q s.
Proof. done. Qed.

Lemma wp_sload {A} (f : Auction → A) id (Q : A → State → Prop) s :
  Q (f (auctionAt s id)) s → wp (sload f id) Q s.
Proof. done. Qed.

Lemma wp_sstore f id (Q : unit → State → Prop) s :
  Q tt (mkState (auctionCount s) (<[id := f (auctionAt s id)]> (auctions s))
                (fhe s) (events s)) →
  wp (sstore f id) Q s.
Proof. done. Qed.

Lemma wp_emit ev (Q : unit → State → Prop) s :
  Q tt (mkState (auctionCount s) (auctions s) (fhe s) (events s ++ [ev])) →
  wp (emit ev) Q s.
Proof. done. Qed.

Lemma wp_grant h p (Q : unit → State → Prop) s :
  Q tt (mkState (auctionCount s) (auctions s) (allow h p (fhe s)) (events s)) →
  wp (grant h p) Q s.
Proof. done. Qed.

Lemma wp_engine (op : Engine → handle * Engine) (Q : handle → State → Prop) s :
  (∀ h e', op (fhe s) = (h, e') →
           Q h (mkState (auctionCount s) (auctions s) e' (events s))) →
  wp (engine op) Q s.
Proof.
  intros H. unfold wp, engine.
  destruct (op (fhe s)) as [h e'] eqn:E. by apply H.
Qed.

Lemma wp_importBid verify ext proof env v (Q : handle → State → Prop) s :
  verify (msg_sender env) ext proof = Some v →
  (∀ h e', fresh v (fhe s) = (h, e') →
           Q h (mkState (auctionCount s) (auctions s) e' (events s))) →
  wp (importBid verify ext proof env) Q s.
Proof.
  intros Hv H. unfold wp, importBid, fromExternal. rewrite Hv.
  destruct (fresh v (fhe s)) as [h e'] eqn:E. by apply H.
Qed.

Lemma wp_nextId (Q : Z → State → Prop) s :
  auctionCount s ≠ uint256_max →
  Q (auctionCount s + 1)
    (mkState (auctionCount s + 1) (auctions s) (fhe s) (events s)) →
  wp nextId Q s.
Proof.
  intros Hn HQ. unfold wp, nextId.
  by destruct (Z.eqb_spec (auctionCount s) uint256_max).
Qed.

(** Reading [auctions[id]] back. *)
Lemma auctionAt_stored c m e ev id a :
  auctionAt (mkState c (<[id := a]> m) e ev) id = a.
Proof. unfold auctionAt. cbn. by rewrite lookup_insert_eq. Qed.

Lemma auctionAt_frame c e ev s id :
  auctionAt (mkState c (auctions s) e ev) id = auctionAt s id.
Proof. done. Qed.

Lemma created_lookup s id :
  created (auctionAt s id) = true → auctions s !! id = Some (auctionAt s id).
Proof.
  unfold auctionAt. destruct (auctions s !! id); [done | discriminate].
Qed.

(** One step of symbolic execution through code that touches no ciphertext. *)
Ltac wp_pure :=
  lazymatch goal with
  | |- wp (bind _ _) _ _ => apply wp_bind
  | |- wp (ret _) _ _ => apply wp_ret
  | |- wp (sload _ _) _ _ => apply wp_sload
  | |- wp (sstore _ _) _ _ => apply wp_sstore
  | |- wp (emit _) _ _ => apply wp_emit
  | |- wp (grant _ _) _ _ => apply wp_grant
  | |- wp (require true _) _ _ => apply wp_require
  end;
  cbn [fhe auctions auctionCount events];
  rewrite ?auctionAt_stored, ?auctionAt_frame.

(** One engine call: name the handle it issues and the engine after it. *)
Ltac wp_fresh h e H :=
  lazymatch goal with
  | |- wp (engine _) _ _ =>
      apply wp_engine; intros h e H;
      unfold asEuint32, asEuint64, asEaddress, gt, le, add, select in H;
      apply fresh_spec in H; cbn [fhe auctions auctionCount events] in H |- *;
      rewrite ?auctionAt_stored, ?auctionAt_frame
  end.

(** [extends a b] along the chain of engines met during a call. *)
Ltac ext_solve :=
  repeat apply extends_allow_r;
  repeat first [ assumption | apply extends_refl
               | eapply extends_trans; [eassumption |] ].

Ltac issued_solve :=
  first [ assumption
        | match goal with
          | H : issued ?e ?h |- issued ?e' ?h =>
              apply (extends_issued e e' h); [ext_solve | exact H]
          end ].

(** Read every handle in the engine that issued it. *)
Ltac plain_norm :=
  repeat rewrite allow_plain in *;
  repeat rewrite allow_plainBool in *;
  repeat match goal with
    | H : issued ?e ?h |- context [plain ?e' ?h] =>
        lazymatch e' with
        | e => fail
        | _ => rewrite (extends_plain e e' h ltac:(ext_solve) H)
        end
    | H : issued ?e ?h, H' : context [plain ?e' ?h] |- _ =>
        lazymatch e' with
        | e => fail
        | _ => rewrite (extends_plain e e' h ltac:(ext_solve) H) in H'
        end
    | H : issued ?e ?h |- context [plainBool ?e' ?h] =>
        lazymatch e' with
        | e => fail
        | _ => rewrite (extends_plainBool e e' h ltac:(ext_solve) H)
        end
    | H : issued ?e ?h, H' : context [plainBool ?e' ?h] |- _ =>
        lazymatch e' with
        | e => fail
        | _ => rewrite (extends_plainBool e e' h ltac:(ext_solve) H) in H'
        end
    end.

Ltac fields :=
  cbn [set_highestBid set_highestBidder set_lastBidTime name startPrice
       highestBid highestBidder lastBidTime createdAt created] in *.

End Logic.

(** ** What each call does *)

Module Effects.

Import FHE FHEAuction Specs FHEFacts Logic.

Section Calls.

Variable this : address.
Variable verify : address → Z → list Z → option Z.

Lemma bid_wp id ext proof env s v :
  created (auctionAt s id) = true →
  verify (msg_sender env) ext proof = Some v →
  issued (fhe s) (highestBid (auctionAt s id)) →
  issued (fhe s) (highestBidder (auctionAt s id)) →
  issued (fhe s) (lastBidTime (auctionAt s id)) →
  wp (bid this verify id ext proof env) (BidPost this env id v s) s.
Proof.
  intros Hc Hv I1 I2 I3. unfold bid, allowThis.
  do 3 wp_pure. rewrite Hc. repeat wp_pure.
  eapply wp_importBid; [exact Hv|]. intros encBid e1 H1. apply fresh_spec in H1.
  repeat wp_pure. wp_fresh isH e2 H2.
  repeat wp_pure. wp_fresh h1 e3 H3.
  repeat wp_pure. wp_fresh me e4 H4. repeat wp_pure. wp_fresh h2 e5 H5.
  repeat wp_pure. wp_fresh now e6 H6. repeat wp_pure. wp_fresh h3 e7 H7.
  repeat wp_pure. fields.
  destruct H1 as (V1 & J1 & N1 & X1 & A1), H2 as (V2 & J2 & N2 & X2 & A2),
    H3 as (V3 & J3 & N3 & X3 & A3), H4 as (V4 & J4 & N4 & X4 & A4),
    H5 as (V5 & J5 & N5 & X5 & A5), H6 as (V6 & J6 & N6 & X6 & A6),
    H7 as (V7 & J7 & N7 & X7 & A7).
  plain_norm.
  pose proof (b2z_plainBool _ _ _ V2) as B2. rewrite V1 in *.
  split; cbn [fhe auctions auctionCount events]; unfold leader;
    rewrite ?auctionAt_stored; fields; plain_norm;
    cbn [fhe auctions auctionCount events].
  - exact B2.
  - rewrite V3, V5, V7, B2, V4, V6.
    by destruct (plain (fhe s) (highestBid (auctionAt s id)) <? v).
  - done.
  - done.
  - done.
  - done.
  - done.
  - intros id' Hne. by rewrite !lookup_insert_ne.
  - ext_solve.
  - repeat split; apply allow_issued; issued_solve.
  - repeat split; intros I; [apply N3 | apply N5 | apply N7]; issued_solve.
  - cbn. clear. set_solver.
  - cbn. clear. set_solver.
  - done.
Qed.

Lemma createAuction_wp n p env s :
  auctionCount s ≠ uint256_max →
  wp (createAuction this n p env) (CreatePost this env n p s) s.
Proof.
  intros Hn. unfold createAuction, allowThis.
  apply wp_bind, wp_nextId; [done|]. repeat wp_pure.
  wp_fresh encStart e1 H1. repeat wp_pure. wp_fresh encBidder e2 H2.
  repeat wp_pure. wp_fresh encNow e3 H3. repeat wp_pure. fields.
  destruct H1 as (V1 & J1 & N1 & X1 & A1), H2 as (V2 & J2 & N2 & X2 & A2),
    H3 as (V3 & J3 & N3 & X3 & A3).
  split; cbn [fhe auctions auctionCount events]; unfold leader;
    rewrite ?auctionAt_stored; fields; plain_norm;
    cbn [fhe auctions auctionCount events].
  - done.
  - done.
  - done.
  - intros id' Hne. by rewrite lookup_insert_ne.
  - done.
  - done.
  - done.
  - done.
  - done.
  - by rewrite V1, V2, V3.
  - ext_solve.
  - repeat split; apply allow_issued; issued_solve.
  - repeat split; intros I; [apply N1 | apply N2 | apply N3]; issued_solve.
  - cbn. clear. set_solver.
  - done.
Qed.

Lemma checkEndedBody_wp id env s :
  created (auctionAt s id) = true →
  issued (fhe s) (lastBidTime (auctionAt s id)) →
  wp (checkEndedBody id env) (CheckPost env id s) s.
Proof.
  intros Hc I1. unfold checkEndedBody.
  do 3 wp_pure. rewrite Hc. repeat wp_pure.
  wp_fresh window e1 H1. repeat wp_pure. wp_fresh deadline e2 H2.
  repeat wp_pure. wp_fresh now e3 H3. repeat wp_pure. wp_fresh ended e4 H4.
  repeat wp_pure.
  destruct H1 as (V1 & J1 & N1 & X1 & A1), H2 as (V2 & J2 & N2 & X2 & A2),
    H3 as (V3 & J3 & N3 & X3 & A3), H4 as (V4 & J4 & N4 & X4 & A4).
  plain_norm. pose proof (b2z_plainBool _ _ _ V4) as B4.
  split; cbn [fhe auctions auctionCount events fst snd]; plain_norm.
  - by rewrite V2, V1.
  - by rewrite B4, V3.
  - done.
  - done.
  - done.
  - ext_solve.
  - cbn. clear. set_solver.
Qed.

(** *** Calls that revert, and calls that only read *)

Definition notFound : Error := RequireFailed "AUCTION_NOT_FOUND".

Lemma bind_err {A B} (m : M A) (k : A → M B) s e :
  m s = Err e → bind m k s = Err e.
Proof. unfold bind. by intros ->. Qed.

Lemma bind_ok {A B} (m : M A) (k : A → M B) s a s' :
  m s = Ok (a, s') → bind m k s = k a s'.
Proof. unfold bind. by intros ->. Qed.

Lemma guard_missing id s :
  created (auctionAt s id) = false →
  (let* c := sload created id in require c "AUCTION_NOT_FOUND") s = Err notFound.
Proof. unfold bind, sload, require. by intros ->. Qed.

Lemma guard_present id s :
  created (auctionAt s id) = true →
  (let* c := sload created id in require c "AUCTION_NOT_FOUND") s = Ok (tt, s).
Proof. unfold bind, sload, require. by intros ->. Qed.

Lemma getAuctionInfo_missing id s :
  created (auctionAt s id) = false → getAuctionInfo id s = Err notFound.
Proof. intros H. by apply bind_err, guard_missing. Qed.

Lemma getEncryptedHighestBidder_missing id s :
  created (auctionAt s id) = false → getEncryptedHighestBidder id s = Err notFound.
Proof. intros H. by apply bind_err, guard_missing. Qed.

Lemma getEncryptedHighestBid_missing id s :
  created (auctionAt s id) = false → getEncryptedHighestBid id s = Err notFound.
Proof. intros H. by apply bind_err, guard_missing. Qed.

Lemma bid_missing id ext proof env s :
  created (auctionAt s id) = false →
  bid this verify id ext proof env s = Err notFound.
Proof. intros H. by apply bind_err, guard_missing. Qed.

Lemma checkEnded_missing id env s :
  created (auctionAt s id) = false → checkEnded id env s = Err notFound.
Proof. intros H. by apply bind_err, bind_err, guard_missing. Qed.

Lemma bid_rejected id ext proof env s :
  created (auctionAt s id) = true →
  verify (msg_sender env) ext proof = None →
  bid this verify id ext proof env s = Err InputRejected.
Proof.
  intros Hc Hv. unfold bid.
  rewrite (bind_ok _ _ _ _ _ (guard_present id s Hc)).
  apply bind_err. unfold importBid, fromExternal. by rewrite Hv.
Qed.

Lemma createAuction_overflow n p env s :
  auctionCount s = uint256_max →
  createAuction this n p env s = Err (Panic 17).
Proof.
  intros H. apply bind_err. unfold nextId. rewrite H. done.
Qed.

Lemma getAuctionInfo_present id s :
  created (auctionAt s id) = true →
  getAuctionInfo id s
  = Ok ((name (auctionAt s id), createdAt (auctionAt s id)), s).
Proof.
  intros Hc. unfold getAuctionInfo.
  by rewrite (bind_ok _ _ _ _ _ (guard_present id s Hc)).
Qed.

Lemma getEncryptedHighestBidder_present id s :
  created (auctionAt s id) = true →
  getEncryptedHighestBidder id s = Ok (highestBidder (auctionAt s id), s).
Proof.
  intros Hc. unfold getEncryptedHighestBidder.
  by rewrite (bind_ok _ _ _ _ _ (guard_present id s Hc)).
Qed.

Lemma getEncryptedHighestBid_present id s :
  created (auctionAt s id) = true →
  getEncryptedHighestBid id s = Ok (highestBid (auctionAt s id), s).
Proof.
  intros Hc. unfold getEncryptedHighestBid.
  by rewrite (bind_ok _ _ _ _ _ (guard_present id s Hc)).
Qed.

End Calls.

End Effects.

(** ** Invariants of the registry *)

Module Invariants.

Import FHE FHEAuction Specs FHEFacts Logic Effects.

Lemma auctionAt_same s s' id :
  auctions s' !! id = auctions s !! id → auctionAt s' id = auctionAt s id.
Proof. unfold auctionAt. by intros ->. Qed.

Lemma leader_frame s s' id :
  auctionAt s' id = auctionAt s id →
  extends (fhe s) (fhe s') →
  issued (fhe s) (highestBid (auctionAt s id)) →
  issued (fhe s) (highestBidder (auctionAt s id)) →
  issued (fhe s) (lastBidTime (auctionAt s id)) →
  leader s' id = leader s id.
Proof.
  intros E X I1 I2 I3. unfold leader. rewrite E.
  by rewrite !(extends_plain (fhe s) (fhe s')).
Qed.

Lemma uint64_range x : 0 ≤ uint64 x < 2 ^ 64.
Proof. unfold uint64. apply Z.mod_pos_bound. lia. Qed.

Lemma uint64_small x : 0 ≤ x < 2 ^ 64 → uint64 x = x.
Proof. unfold uint64. intros. by apply Z.mod_small. Qed.

Lemma init_inv : inv init.
Proof.
  split; cbn.
  - unfold uint256_max. lia.
  - intros id. unfold auctionAt. cbn. rewrite lookup_empty. cbn.
    split; [done | lia].
  - intros id. unfold auctionAt, issued. cbn. rewrite lookup_empty. cbn. lia.
  - intros id. unfold auctionAt. cbn. rewrite lookup_empty. cbn. lia.
Qed.

Section Calls.

Variable this : address.
Variable verify : address → Z → list Z → option Z.

Lemma call_effect c env s :
  inv s →
  match call this verify c env s with
  | Ok (r, s') => CallPost this verify env c s r s'
  | Err _ => True
  end.
Proof.
  intros I. destruct c as [n p|id|id|id|id ext proof|id]; cbn [call].
  - destruct (Z.eq_dec (auctionCount s) uint256_max) as [E|E].
    + by rewrite (bind_err _ _ _ _ (createAuction_overflow this n p env s E)).
    + destruct (wp_returns _ _ _ (createAuction_wp this n p env s E))
        as (id & s' & R & P).
      rewrite (bind_ok _ _ _ _ _ R). cbn. eauto.
  - destruct (created (auctionAt s id)) eqn:Hc.
    + by rewrite (bind_ok _ _ _ _ _ (getAuctionInfo_present id s Hc)).
    + by rewrite (bind_err _ _ _ _ (getAuctionInfo_missing id s Hc)).
  - destruct (created (auctionAt s id)) eqn:Hc.
    + by rewrite (bind_ok _ _ _ _ _ (getEncryptedHighestBidder_present id s Hc)).
    + by rewrite (bind_err _ _ _ _ (getEncryptedHighestBidder_missing id s Hc)).
  - destruct (created (auctionAt s id)) eqn:Hc.
    + by rewrite (bind_ok _ _ _ _ _ (getEncryptedHighestBid_present id s Hc)).
    + by rewrite (bind_err _ _ _ _ (getEncryptedHighestBid_missing id s Hc)).
  - destruct (created (auctionAt s id)) eqn:Hc.
    2: by rewrite (bind_err _ _ _ _ (bid_missing this verify id ext proof env s Hc)).
    destruct (verify (msg_sender env) ext proof) as [v|] eqn:Hv.
    2: by rewrite (bind_err _ _ _ _ (bid_rejected this verify id ext proof env s Hc Hv)).
    destruct (inv_issued s I id) as (_ & I1 & I2 & I3).
    destruct (wp_returns _ _ _ (bid_wp this verify id ext proof env s v Hc Hv I1 I2 I3))
      as (h & s' & R & P).
    rewrite (bind_ok _ _ _ _ _ R). cbn. rewrite Hc. eauto 10.
  - destruct (created (auctionAt s id)) eqn:Hc.
    2: by rewrite (bind_err _ _ _ _ (checkEnded_missing id env s Hc)).
    destruct (inv_issued s I id) as (_ & _ & _ & I3).
    destruct (wp_returns _ _ _ (checkEndedBody_wp id env s Hc I3))
      as ([d h] & s' & R & P).
    unfold checkEnded. rewrite (bind_ok _ _ _ _ _ (bind_ok _ _ _ _ _ R)).
    cbn. rewrite Hc. eauto 10.
Qed.

Lemma create_inv env n p s id s' :
  inv s → CreatePost this env n p s id s' → inv s'.
Proof.
  intros I P.
  assert (F : ∀ i, i ≠ id → auctionAt s' i = auctionAt s i)
    by (intros i Hi; apply auctionAt_same, (cp_others _ _ _ _ _ _ _ P i Hi)).
  pose proof (inv_count s I) as C.
  pose proof (cp_extends _ _ _ _ _ _ _ P) as X.
  pose proof (cp_room _ _ _ _ _ _ _ P) as R.
  pose proof (cp_id _ _ _ _ _ _ _ P) as Hid.
  pose proof (cp_count _ _ _ _ _ _ _ P) as Hc.
  split.
  - lia.
  - intros i. destruct (Z.eq_dec i id) as [->|Hi].
    + rewrite (cp_created _ _ _ _ _ _ _ P). split; [lia | done].
    + rewrite (F i Hi), (inv_dense s I). lia.
  - intros i. destruct (Z.eq_dec i id) as [->|Hi].
    + apply (cp_issued _ _ _ _ _ _ _ P).
    + rewrite (F i Hi).
      destruct (inv_issued s I i) as (I0 & I1 & I2 & I3).
      repeat split; by apply (extends_issued (fhe s)).
  - intros i. destruct (Z.eq_dec i id) as [->|Hi].
    + pose proof (cp_leader _ _ _ _ _ _ _ P) as L.
      unfold leader in L. injection L as _ _ ->. apply uint64_range.
    + rewrite (F i Hi).
      destruct (inv_issued s I i) as (_ & _ & _ & I3).
      rewrite (extends_plain (fhe s)) by done. by apply (inv_time s I).
Qed.

Lemma bid_inv env id v s h s' :
  inv s → created (auctionAt s id) = true →
  BidPost this env id v s h s' → inv s'.
Proof.
  intros I E0 P.
  assert (F : ∀ i, i ≠ id → auctionAt s' i = auctionAt s i)
    by (intros i Hi; apply auctionAt_same, (bp_others _ _ _ _ _ _ _ P i Hi)).
  pose proof (bp_extends _ _ _ _ _ _ _ P) as X.
  split.
  - rewrite (bp_count _ _ _ _ _ _ _ P). apply (inv_count s I).
  - intros i. rewrite (bp_count _ _ _ _ _ _ _ P), <- (inv_dense s I).
    destruct (Z.eq_dec i id) as [->|Hi].
    + by rewrite (bp_created _ _ _ _ _ _ _ P), E0.
    + by rewrite (F i Hi).
  - intros i. destruct (Z.eq_dec i id) as [->|Hi].
    + destruct (bp_issued _ _ _ _ _ _ _ P) as (J1 & J2 & J3).
      rewrite (bp_startPrice _ _ _ _ _ _ _ P).
      destruct (inv_issued s I id) as (I0 & _).
      repeat split; try done. by apply (extends_issued (fhe s)).
    + rewrite (F i Hi).
      destruct (inv_issued s I i) as (I0 & I1 & I2 & I3).
      repeat split; by apply (extends_issued (fhe s)).
  - intros i. destruct (Z.eq_dec i id) as [->|Hi].
    + pose proof (bp_leader _ _ _ _ _ _ _ P) as L.
      pose proof (inv_time s I id) as T.
      unfold leader in L.
      destruct (plain (fhe s) (highestBid (auctionAt s id)) <? v);
        injection L as _ _ ->; [apply uint64_range | done].
    + rewrite (F i Hi).
      destruct (inv_issued s I i) as (_ & _ & _ & I3).
      rewrite (extends_plain (fhe s)) by done. by apply (inv_time s I).
Qed.

Lemma check_inv env id s r s' :
  inv s → CheckPost env id s r s' → inv s'.
Proof.
  intros I P.
  assert (F : ∀ i, auctionAt s' i = auctionAt s i)
    by (intros i; apply auctionAt_same; by rewrite (ce_auctions _ _ _ _ _ P)).
  pose proof (ce_extends _ _ _ _ _ P) as X.
  split.
  - rewrite (ce_count _ _ _ _ _ P). apply (inv_count s I).
  - intros i. rewrite (ce_count _ _ _ _ _ P), F. apply (inv_dense s I).
  - intros i. rewrite F.
    destruct (inv_issued s I i) as (I0 & I1 & I2 & I3).
    repeat split; by apply (extends_issued (fhe s)).
  - intros i. rewrite F.
    destruct (inv_issued s I i) as (_ & _ & _ & I3).
    rewrite (extends_plain (fhe s)) by done. by apply (inv_time s I).
Qed.

Lemma call_inv c env s r s' :
  inv s → call this verify c env s = Ok (r, s') → inv s'.
Proof.
  intros I R. pose proof (call_effect c env s I) as P. rewrite R in P.
  destruct c; cbn in P.
  - destruct P as (id & _ & P). by eapply create_inv.
  - by destruct P as (_ & ->).
  - by destruct P as (_ & ->).
  - by destruct P as (_ & ->).
  - destruct P as (v & h & E & _ & _ & P). by eapply bid_inv.
  - destruct P as (d & h & _ & _ & P). by eapply check_inv.
Qed.

Lemma transact_inv t s : inv s → inv (transact this verify t s).
Proof.
  intros I. unfold transact.
  destruct (call this verify t.2 t.1 s) as [[r s']|] eqn:R; [|done].
  by eapply call_inv.
Qed.

Lemma run_app txs txs' s :
  run this verify (txs ++ txs') s = run this verify txs' (run this verify txs s).
Proof. unfold run. by rewrite fold_left_app. Qed.

Lemma run_inv txs s : inv s → inv (run this verify txs s).
Proof.
  revert s. induction txs as [|t txs IH]; intros s I; [done|].
  cbn. by apply IH, transact_inv.
Qed.

Lemma bid_effect id ext proof env s h s' :
  inv s → bid this verify id ext proof env s = Ok (h, s') →
  ∃ v, created (auctionAt s id) = true
       ∧ verify (msg_sender env) ext proof = Some v
       ∧ BidPost this env id v s h s'.
Proof.
  intros I R. pose proof (call_effect (Bid id ext proof) env s I) as P.
  cbn [call] in P. rewrite (bind_ok _ _ _ _ _ R) in P.
  destruct P as (v & h' & E & Hv & [= <-] & P). eauto.
Qed.

Lemma bid_returns id ext proof env s v :
  inv s → created (auctionAt s id) = true →
  verify (msg_sender env) ext proof = Some v →
  ∃ h s', bid this verify id ext proof env s = Ok (h, s')
          ∧ BidPost this env id v s h s'.
Proof.
  intros I Hc Hv. destruct (inv_issued s I id) as (_ & I1 & I2 & I3).
  apply wp_returns. by apply bid_wp.
Qed.

Lemma create_effect n p env s id s' :
  createAuction this n p env s = Ok (id, s') → CreatePost this env n p s id s'.
Proof.
  intros R. destruct (Z.eq_dec (auctionCount s) uint256_max) as [E|E].
  - by rewrite (createAuction_overflow this n p env s E) in R.
  - destruct (wp_returns _ _ _ (createAuction_wp this n p env s E))
      as (id' & s'' & R' & P).
    rewrite R in R'. by injection R' as <- <-.
Qed.

Lemma checkEnded_returns id env s :
  inv s → created (auctionAt s id) = true →
  ∃ d h s', checkEndedBody id env s = Ok ((d, h), s')
            ∧ checkEnded id env s = Ok (h, s')
            ∧ CheckPost env id s (d, h) s'.
Proof.
  intros I Hc. destruct (inv_issued s I id) as (_ & _ & _ & I3).
  destruct (wp_returns _ _ _ (checkEndedBody_wp id env s Hc I3))
    as ([d h] & s' & R & P).
  exists d, h, s'. split; [done|]. split; [|done].
  unfold checkEnded. by rewrite (bind_ok _ _ _ _ _ R).
Qed.

(** Every state the contract can reach satisfies the invariant. *)
Lemma reachable_inv txs : inv (run this verify txs init).
Proof. apply run_inv, init_inv. Qed.

End Calls.

End Invariants.


(** ** The running leader is the promised one *)

Module LeaderFacts.

Import FHE FHEAuction Specs FHEFacts Logic Effects Invariants Leader.

Lemma maxValue_max a b l : Z.max a (maxValue b l) = maxValue (Z.max a b) l.
Proof.
  induction l as [|o l IH]; cbn; [done|].
  fold (maxValue b l). fold (maxValue (Z.max a b) l). rewrite <- IH. lia.
Qed.

Lemma maxValue_ge x l : x ≤ maxValue x l.
Proof.
  induction l as [|o l IH]; cbn; [lia|]. fold (maxValue x l). lia.
Qed.

(** Every accepted bid is above the value that led when the run began. *)
Lemma strictlyGreater_above x bids :
  Forall (fun o => x < offerValue o) (strictlyGreater x bids).
Proof.
  revert x. induction bids as [|o bids IH]; intros x; cbn; [constructor|].
  destruct (Z.ltb_spec x (offerValue o)) as [Lt|Ge]; [|apply IH].
  constructor; [done|].
  eapply Forall_impl; [apply IH|]. cbn. intros; lia.
Qed.

Lemma find_none_above x (l : list Offer) :
  Forall (fun o => x < offerValue o) l →
  List.find (fun o => offerValue o =? x) l = None.
Proof.
  induction 1 as [|o l Ho _ IH]; cbn; [done|].
  destruct (Z.eqb_spec (offerValue o) x); [lia | done].
Qed.

(** A maximum above the start value is the value of some bid. *)
Lemma find_max x (l : list Offer) :
  x < maxValue x l →
  is_Some (List.find (fun o => offerValue o =? maxValue x l) l).
Proof.
  induction l as [|o l IH]; cbn; [lia|]. fold (maxValue x l). intros H.
  destruct (Z.eqb_spec (offerValue o) (Z.max (offerValue o) (maxValue x l)))
    as [E|N]; [by eexists|].
  assert (M : Z.max (offerValue o) (maxValue x l) = maxValue x l) by lia.
  rewrite M in *. by apply IH.
Qed.

Lemma originOf_found x d d' (l : list Offer) :
  is_Some (List.find (fun o => offerValue o =? x) l) →
  originOf x d l = originOf x d' l.
Proof. unfold originOf. by intros [o ->]. Qed.

(** Folding [settle] over the bids gives the maximum of the accepted values
    together with its origin. *)
Lemma settle_promised bids l :
  fold_left settle bids l
  = (maxValue l.1.1 (strictlyGreater l.1.1 bids),
     (originOf (maxValue l.1.1 (strictlyGreater l.1.1 bids)) (l.1.2, l.2)
               (strictlyGreater l.1.1 bids)).1,
     (originOf (maxValue l.1.1 (strictlyGreater l.1.1 bids)) (l.1.2, l.2)
               (strictlyGreater l.1.1 bids)).2).
Proof.
  revert l. induction bids as [|o bids IH]; intros [[lv lb] lt]; cbn.
  { done. }
  unfold settle at 2. cbn [fst snd].
  destruct (Z.ltb_spec lv (offerValue o)) as [Lt|Ge]; [|apply IH].
  rewrite IH. cbn [foldr]. fold (maxValue lv (strictlyGreater (offerValue o) bids)).
  rewrite maxValue_max, Z.max_l by lia.
  set (acc := strictlyGreater (offerValue o) bids).
  set (m := maxValue (offerValue o) acc).
  fold (offerValue o).
  assert (O : originOf m (lb, lt) (o :: acc) = originOf m (o.1.2, o.2) acc).
  { unfold originOf at 1. cbn [List.find].
    destruct (Z.eqb_spec (offerValue o) m) as [E|N].
    - pose proof (find_none_above _ _ (strictlyGreater_above (offerValue o) bids))
        as F.
      fold acc in F. unfold originOf. by rewrite <- E, F.
    - fold (originOf m (lb, lt) acc). apply originOf_found, find_max.
      pose proof (maxValue_ge (offerValue o) acc). fold m in H. lia. }
  by rewrite O.
Qed.

Lemma maxValue_all bids x :
  maxValue x (strictlyGreater x bids) = maxValue x bids.
Proof.
  revert x. induction bids as [|o bids IH]; intros x; cbn; [done|].
  fold (maxValue x bids).
  destruct (Z.ltb_spec x (offerValue o)) as [Lt|Ge].
  - cbn. fold (maxValue x (strictlyGreater (offerValue o) bids)).
    rewrite !maxValue_max, Z.max_l by lia. apply IH.
  - rewrite IH, maxValue_max, Z.max_r by lia. done.
Qed.

Section Runs.

Variable this : address.
Variable verify : address → Z → list Z → option Z.

(** What one transaction does to the leader of an existing auction. *)
Lemma transact_leader t s id :
  inv s → created (auctionAt s id) = true →
  created (auctionAt (transact this verify t s) id) = true
  ∧ leader (transact this verify t s) id
    = match offerOf verify id t with
      | Some o => settle (leader s id) o
      | None => leader s id
      end.
Proof.
  intros I Hc. destruct t as [env c]. unfold transact, offerOf. cbn [fst snd].
  pose proof (call_effect this verify c env s I) as P.
  destruct (inv_issued s I id) as (I0 & I1 & I2 & I3).
  assert (Same : ∀ s2, auctions s2 !! id = auctions s !! id →
            extends (fhe s) (fhe s2) →
            created (auctionAt s2 id) = true ∧ leader s2 id = leader s id).
  { intros s2 E X. pose proof (auctionAt_same _ _ _ E) as F.
    split; [by rewrite F|]. by apply leader_frame. }
  destruct c as [n p|i|i|i|i ext proof|i].
  - destruct (call _ _ _ _ s) as [[r s']|]; [|done]. cbn in P.
    destruct P as (id' & _ & P). apply Same.
    + apply (cp_others _ _ _ _ _ _ _ P).
      rewrite (cp_id _ _ _ _ _ _ _ P). apply (inv_dense s I) in Hc. lia.
    + apply (cp_extends _ _ _ _ _ _ _ P).
  - destruct (call _ _ _ _ s) as [[r s']|]; [|done]. cbn in P.
    by destruct P as (_ & ->).
  - destruct (call _ _ _ _ s) as [[r s']|]; [|done]. cbn in P.
    by destruct P as (_ & ->).
  - destruct (call _ _ _ _ s) as [[r s']|]; [|done]. cbn in P.
    by destruct P as (_ & ->).
  - destruct (Z.eqb_spec i id) as [->|Hne].
    + destruct (verify (msg_sender env) ext proof) as [v|] eqn:Hv.
      * destruct (bid_returns this verify id ext proof env s v I Hc Hv)
          as (h & s' & R & Q).
        cbn [call]. rewrite (bind_ok _ _ _ _ _ R). cbn.
        split; [apply (bp_created _ _ _ _ _ _ _ Q)|].
        rewrite (bp_leader _ _ _ _ _ _ _ Q). unfold settle, leader. done.
      * cbn [call].
        by rewrite (bind_err _ _ _ _
                      (bid_rejected this verify id ext proof env s Hc Hv)).
    + destruct (call _ _ _ _ s) as [[r s']|]; [|done]. cbn in P.
      destruct P as (v & h & _ & _ & _ & P). apply Same.
      * apply (bp_others _ _ _ _ _ _ _ P). congruence.
      * apply (bp_extends _ _ _ _ _ _ _ P).
  - destruct (call _ _ _ _ s) as [[r s']|]; [|done]. cbn in P.
    destruct P as (d & h & _ & _ & P). apply Same.
    + by rewrite (ce_auctions _ _ _ _ _ P).
    + apply (ce_extends _ _ _ _ _ P).
Qed.

Lemma run_leader txs s id :
  inv s → created (auctionAt s id) = true →
  created (auctionAt (run this verify txs s) id) = true
  ∧ leader (run this verify txs s) id
    = fold_left settle (bidsOn verify id txs) (leader s id).
Proof.
  revert s. induction txs as [|t txs IH]; intros s I Hc; [done|].
  destruct (transact_leader t s id I Hc) as (Hc' & L).
  cbn [run fold_left]. fold (run this verify txs (transact this verify t s)).
  destruct (IH _ (transact_inv this verify t s I) Hc') as (Hc2 & L2).
  split; [done|]. rewrite L2, L. unfold bidsOn. cbn.
  by destruct (offerOf verify id t).
Qed.

End Runs.

End LeaderFacts.

(** ** Running the scenario of the specification *)

Module ScenarioRuns.

Import FHE FHEAuction Specs Scenario.

Example scenario_leader : leader afterBids 1 = (200, bob, T0 + 30).
Proof. vm_compute. reflexivity. Qed.

Example scenario_unknown :
  getAuctionInfo 999 (run this verify widget init) = Err notFound.
Proof. vm_compute. reflexivity. Qed.

Example scenario_ended :
  match checkEnded 1 (mkEnv bob (T0 + 700)) afterBids,
        checkEnded 1 (mkEnv bob (T0 + 100)) afterBids with
  | Ok (h1, s1), Ok (h2, s2) => (plainBool (fhe s1) h1, plainBool (fhe s2) h2)
  | _, _ => (false, false)
  end = (true, false).
Proof. vm_compute. reflexivity. Qed.

End ScenarioRuns.

(** ** Properties of the auction manager *)

Module Properties.

Import FHE FHEAuction Specs FHEFacts Logic Effects Invariants Leader LeaderFacts.

Section Claims.

Variable this : address.
Variable verify : address → Z → list Z → option Z.

(** C1. Take any reachable state, create an auction there with start
    price [p], and run any further calls. Whatever bids on the new
    auction were accepted for evaluation among them, the value behind
    [highestBid] is then the maximum of [p] and of the bids that were
    strictly greater than the leader when submitted (which is also the
    maximum of [p] and of all the bids), and [highestBidder] and
    [lastBidTime] stand for the sender and the 64-bit time of the bid
    that carried that maximum, or for the zero address and the creation
    time when no bid exceeded [p]. As the calls are arbitrary, this holds
    after each bid. *)
Theorem leader_is_max pre env0 n p id s1 post :
  createAuction this n p env0 (run this verify pre init) = Ok (id, s1) →
  let bids := bidsOn verify id post in
  let s := run this verify post s1 in
  created (auctionAt s id) = true
  ∧ leader s id = promised p (uint64 (block_timestamp env0)) bids
  ∧ plain (fhe s) (highestBid (auctionAt s id))
    = maxValue p (strictlyGreater p bids)
  ∧ maxValue p (strictlyGreater p bids) = maxValue p bids.
Proof.
  intros R bids s.
  pose proof (create_effect this _ _ _ _ _ _ R) as P.
  pose proof (create_inv this _ _ _ _ _ _ (reachable_inv this verify pre) P) as I1.
  destruct (run_leader this verify post s1 id I1 (cp_created _ _ _ _ _ _ _ P))
    as (Hc & L).
  fold s in Hc, L. fold bids in L.
  rewrite (cp_leader _ _ _ _ _ _ _ P), settle_promised in L. cbn [fst snd] in L.
  assert (E : leader s id = promised p (uint64 (block_timestamp env0)) bids)
    by exact L.
  repeat apply conj; try done.
  - unfold leader in E. unfold promised in E. by injection E as -> _ _.
  - apply maxValue_all.
Qed.

(** C3. On an id whose record does not have the existence flag set,
    [getAuctionInfo], [getEncryptedHighestBid], [getEncryptedHighestBidder],
    [bid] and [checkEnded] all fail with the not-found error, and the
    whole contract state (the counter, every record, the engine and the
    event log) is what it was before the call. *)
Theorem not_found_closure id ext proof env s :
  created (auctionAt s id) = false →
  getAuctionInfo id s = Err notFound
  ∧ getEncryptedHighestBid id s = Err notFound
  ∧ getEncryptedHighestBidder id s = Err notFound
  ∧ bid this verify id ext proof env s = Err notFound
  ∧ checkEnded id env s = Err notFound
  ∧ transact this verify (env, GetAuctionInfo id) s = s
  ∧ transact this verify (env, GetEncryptedHighestBid id) s = s
  ∧ transact this verify (env, GetEncryptedHighestBidder id) s = s
  ∧ transact this verify (env, Bid id ext proof) s = s
  ∧ transact this verify (env, CheckEnded id) s = s.
Proof.
  intros H. unfold transact. cbn [fst snd call].
  rewrite (bind_err _ _ _ _ (getAuctionInfo_missing id s H)).
  rewrite (bind_err _ _ _ _ (getEncryptedHighestBid_missing id s H)).
  rewrite (bind_err _ _ _ _ (getEncryptedHighestBidder_missing id s H)).
  rewrite (bind_err _ _ _ _ (bid_missing this verify id ext proof env s H)).
  rewrite (bind_err _ _ _ _ (checkEnded_missing id env s H)).
  repeat split;
    auto using getAuctionInfo_missing, getEncryptedHighestBid_missing,
      getEncryptedHighestBidder_missing, bid_missing, checkEnded_missing.
Qed.


(** C7. In every reachable state: a bid on an existing auction that the
    engine accepts returns, and so does a [createAuction] while the id counter
    has room; a bid that returns has granted the contract itself on the three
    handles now stored as leader fields, and the caller on the returned flag
    and on those three handles; a [createAuction] that returns has granted
    the contract on the four handles of the new record; and no call, whether
    it returns or reverts, removes a grant. *)
Theorem grants_maintained txs :
  let s := run this verify txs init in
  (∀ id ext proof env v,
     created (auctionAt s id) = true →
     verify (msg_sender env) ext proof = Some v →
     ∃ isHighest s',
       bid this verify id ext proof env s = Ok (isHighest, s')
       ∧ let a := auctionAt s' id in
         (highestBid a, this) ∈ acl (fhe s')
         ∧ (highestBidder a, this) ∈ acl (fhe s')
         ∧ (lastBidTime a, this) ∈ acl (fhe s')
         ∧ (isHighest, msg_sender env) ∈ acl (fhe s')
         ∧ (highestBid a, msg_sender env) ∈ acl (fhe s')
         ∧ (highestBidder a, msg_sender env) ∈ acl (fhe s')
         ∧ (lastBidTime a, msg_sender env) ∈ acl (fhe s'))
  ∧ (∀ id ext proof env isHighest s',
       bid this verify id ext proof env s = Ok (isHighest, s') →
       let a := auctionAt s' id in
       (highestBid a, this) ∈ acl (fhe s')
       ∧ (highestBidder a, this) ∈ acl (fhe s')
       ∧ (lastBidTime a, this) ∈ acl (fhe s')
       ∧ (isHighest, msg_sender env) ∈ acl (fhe s')
       ∧ (highestBid a, msg_sender env) ∈ acl (fhe s')
       ∧ (highestBidder a, msg_sender env) ∈ acl (fhe s')
       ∧ (lastBidTime a, msg_sender env) ∈ acl (fhe s'))
  ∧ (∀ n p env,
       auctionCount s ≠ uint256_max →
       ∃ id s',
         createAuction this n p env s = Ok (id, s')
         ∧ let a := auctionAt s' id in
           (startPrice a, this) ∈ acl (fhe s')
           ∧ (highestBid a, this) ∈ acl (fhe s')
           ∧ (highestBidder a, this) ∈ acl (fhe s')
           ∧ (lastBidTime a, this) ∈ acl (fhe s'))
  ∧ (∀ n p env id s',
       createAuction this n p env s = Ok (id, s') →
       let a := auctionAt s' id in
       (startPrice a, this) ∈ acl (fhe s')
       ∧ (highestBid a, this) ∈ acl (fhe s')
       ∧ (highestBidder a, this) ∈ acl (fhe s')
       ∧ (lastBidTime a, this) ∈ acl (fhe s'))
  ∧ (∀ t, acl (fhe s) ⊆ acl (fhe (transact this verify t s))).
Proof.
  intros s. pose proof (reachable_inv this verify txs) as I. fold s in I.
  assert (Bid : ∀ env id v h s', BidPost this env id v s h s' →
            let a := auctionAt s' id in
            (highestBid a, this) ∈ acl (fhe s')
            ∧ (highestBidder a, this) ∈ acl (fhe s')
            ∧ (lastBidTime a, this) ∈ acl (fhe s')
            ∧ (h, msg_sender env) ∈ acl (fhe s')
            ∧ (highestBid a, msg_sender env) ∈ acl (fhe s')
            ∧ (highestBidder a, msg_sender env) ∈ acl (fhe s')
            ∧ (lastBidTime a, msg_sender env) ∈ acl (fhe s')).
  { intros env id v h s' P.
    destruct (bp_acl_this _ _ _ _ _ _ _ P) as (? & ? & ?).
    destruct (bp_acl_caller _ _ _ _ _ _ _ P) as (? & ? & ? & ?).
    cbn. tauto. }
  repeat apply conj.
  - intros id ext proof env v Hc Hv.
    destruct (bid_returns this verify id ext proof env s v I Hc Hv)
      as (h & s' & R & P).
    exists h, s'. split; [exact R|]. by eapply Bid.
  - intros id ext proof env h s' R.
    destruct (bid_effect this verify _ _ _ _ _ _ _ I R) as (v & _ & _ & P).
    by eapply Bid.
  - intros n p env Hn.
    destruct (wp_returns _ _ _ (createAuction_wp this n p env s Hn))
      as (id & s' & R & P).
    exists id, s'. split; [exact R|]. apply (cp_acl_this _ _ _ _ _ _ _ P).
  - intros n p env id s' R.
    apply (cp_acl_this _ _ _ _ _ _ _ (create_effect this _ _ _ _ _ _ R)).
  - intros [env c]. unfold transact. cbn [fst snd].
    pose proof (call_effect this verify c env s I) as P.
    destruct (call this verify c env s) as [[r s']|]; [|done].
    destruct c; cbn in P.
    + destruct P as (id & _ & P). apply (cp_extends _ _ _ _ _ _ _ P).
    + by destruct P as (_ & ->).
    + by destruct P as (_ & ->).
    + by destruct P as (_ & ->).
    + destruct P as (v & h & _ & _ & _ & P). apply (bp_extends _ _ _ _ _ _ _ P).
    + destruct P as (d & h & _ & _ & P). apply (ce_extends _ _ _ _ _ P).
Qed.

(** C8. In every reachable state, a bid on auction [id] that returns
    leaves that auction's name, start-price handle, creation time and
    existence flag as they were, leaves the id counter as it was, and
    leaves every other auction's record, and the values behind its
    handles, as they were. *)
Theorem bid_frame txs id ext proof env isHighest s' :
  let s := run this verify txs init in
  bid this verify id ext proof env s = Ok (isHighest, s') →
  name (auctionAt s' id) = name (auctionAt s id)
  ∧ startPrice (auctionAt s' id) = startPrice (auctionAt s id)
  ∧ plain (fhe s') (startPrice (auctionAt s' id))
    = plain (fhe s) (startPrice (auctionAt s id))
  ∧ createdAt (auctionAt s' id) = createdAt (auctionAt s id)
  ∧ created (auctionAt s' id) = created (auctionAt s id)
  ∧ auctionCount s' = auctionCount s
  ∧ (∀ id', id' ≠ id →
       auctions s' !! id' = auctions s !! id'
       ∧ auctionAt s' id' = auctionAt s id'
       ∧ leader s' id' = leader s id'
       ∧ plain (fhe s') (startPrice (auctionAt s' id'))
         = plain (fhe s) (startPrice (auctionAt s id'))).
Proof.
  intros s R. pose proof (reachable_inv this verify txs) as I. fold s in I.
  destruct (bid_effect this verify _ _ _ _ _ _ _ I R) as (v & Hc & _ & P).
  pose proof (bp_extends _ _ _ _ _ _ _ P) as X.
  destruct (inv_issued s I id) as (I0 & _).
  repeat apply conj.
  - apply (bp_name _ _ _ _ _ _ _ P).
  - apply (bp_startPrice _ _ _ _ _ _ _ P).
  - rewrite (bp_startPrice _ _ _ _ _ _ _ P). by apply extends_plain.
  - apply (bp_createdAt _ _ _ _ _ _ _ P).
  - by rewrite (bp_created _ _ _ _ _ _ _ P).
  - apply (bp_count _ _ _ _ _ _ _ P).
  - intros id' Hne. pose proof (bp_others _ _ _ _ _ _ _ P id' Hne) as F.
    pose proof (auctionAt_same _ _ _ F) as F'.
    split; [done|]. split; [done|].
    destruct (inv_issued s I id') as (J0 & J1 & J2 & J3).
    split; [by apply leader_frame|]. rewrite F'. by apply extends_plain.
Qed.

(** C2. In every reachable state, a bid on an existing auction that the
    engine accepts returns; if its value equals the value behind
    [highestBid] (or is smaller) the values behind [highestBid],
    [highestBidder] and [lastBidTime] stay what they were and the
    returned flag stands for false; if it is strictly greater the three
    become the bid, its sender and its time, and the flag stands for true.
    So the leader changes only on a strictly greater bid. *)
Theorem tie_keeps_leader txs id ext proof env v :
  let s := run this verify txs init in
  created (auctionAt s id) = true →
  verify (msg_sender env) ext proof = Some v →
  ∃ isHighest s',
    bid this verify id ext proof env s = Ok (isHighest, s')
    ∧ (v = plain (fhe s) (highestBid (auctionAt s id)) →
       leader s' id = leader s id ∧ plainBool (fhe s') isHighest = false)
    ∧ (v ≤ plain (fhe s) (highestBid (auctionAt s id)) →
       leader s' id = leader s id ∧ plainBool (fhe s') isHighest = false)
    ∧ (plain (fhe s) (highestBid (auctionAt s id)) < v →
       leader s' id = (v, msg_sender env, uint64 (block_timestamp env))
       ∧ plainBool (fhe s') isHighest = true)
    ∧ (leader s' id ≠ leader s id →
       plain (fhe s) (highestBid (auctionAt s id)) < v).
Proof.
  intros s Hc Hv. pose proof (reachable_inv this verify txs) as I. fold s in I.
  destruct (bid_returns this verify id ext proof env s v I Hc Hv)
    as (h & s' & R & P).
  exists h, s'. split; [done|].
  pose proof (bp_leader _ _ _ _ _ _ _ P) as L.
  pose proof (bp_flag _ _ _ _ _ _ _ P) as B.
  destruct (Z.ltb_spec (plain (fhe s) (highestBid (auctionAt s id))) v) as [Lt|Ge].
  - repeat split; try done; lia.
  - repeat split; try done; lia.
Qed.

(** C4. In every reachable state the auctions that exist are exactly those
    with an id from 1 to [auctionCount]; there is none with id 0; a
    [createAuction] that returns yields [auctionCount + 1], an id above
    every existing one that did not exist before, and makes it the new
    [auctionCount]; the first id given out is 1; and no call lowers
    [auctionCount] or makes an existing auction cease to exist. *)
Theorem ids_dense txs :
  let s := run this verify txs init in
  (∀ id, created (auctionAt s id) = true ↔ 1 ≤ id ≤ auctionCount s)
  ∧ created (auctionAt s 0) = false
  ∧ (∀ n p env id s',
       createAuction this n p env s = Ok (id, s') →
       id = auctionCount s + 1
       ∧ auctionCount s' = id
       ∧ created (auctionAt s id) = false
       ∧ created (auctionAt s' id) = true
       ∧ ∀ id', created (auctionAt s id') = true → id' < id)
  ∧ (∀ n p env, ∃ s1, createAuction this n p env init = Ok (1, s1))
  ∧ (∀ t, auctionCount s ≤ auctionCount (transact this verify t s)
          ∧ ∀ id, created (auctionAt s id) = true →
                  created (auctionAt (transact this verify t s) id) = true).
Proof.
  intros s. pose proof (reachable_inv this verify txs) as I. fold s in I.
  pose proof (inv_dense s I) as D.
  assert (Z0 : created (auctionAt s 0) = false).
  { destruct (created (auctionAt s 0)) eqn:E; [|done]. apply D in E. lia. }
  repeat apply conj; try done.
  - intros n p env id s' R.
    pose proof (create_effect this _ _ _ _ _ _ R) as P.
    pose proof (cp_id _ _ _ _ _ _ _ P) as Hid.
    repeat apply conj.
    + done.
    + by rewrite (cp_count _ _ _ _ _ _ _ P).
    + destruct (created (auctionAt s id)) eqn:E; [|done]. apply D in E. lia.
    + apply (cp_created _ _ _ _ _ _ _ P).
    + intros id' E. apply D in E. lia.
  - intros n p env.
    assert (Hn : auctionCount init ≠ uint256_max) by done.
    destruct (wp_returns _ _ _ (createAuction_wp this n p env init Hn))
      as (id & s1 & R & P).
    rewrite (cp_id _ _ _ _ _ _ _ P) in R. by exists s1.
  - intros t. pose proof (transact_inv this verify t s I) as I'.
    assert (C : auctionCount s ≤ auctionCount (transact this verify t s)).
    { destruct t as [env c]. unfold transact. cbn [fst snd].
      pose proof (call_effect this verify c env s I) as P.
      destruct (call this verify c env s) as [[r s']|]; [|done].
      destruct c; cbn in P.
      - destruct P as (id & _ & P). rewrite (cp_count _ _ _ _ _ _ _ P). lia.
      - by destruct P as (_ & ->).
      - by destruct P as (_ & ->).
      - by destruct P as (_ & ->).
      - destruct P as (v & h & _ & _ & _ & P).
        by rewrite (bp_count _ _ _ _ _ _ _ P).
      - destruct P as (d & h & _ & _ & P). by rewrite (ce_count _ _ _ _ _ P). }
    split; [done|]. intros id E. apply (inv_dense _ I'). apply D in E. lia.
Qed.

Lemma wrap_sum L : 0 ≤ L < 2 ^ 64 → 2 ^ 64 - 601 < L →
  (L + 600) mod 2 ^ 64 = L + 600 - 2 ^ 64.
Proof.
  intros R H. symmetry. apply (Z.mod_unique_pos _ _ 1); lia.
Qed.

(** What [checkEnded] computes. In every reachable state, [checkEnded] on an
    existing auction returns a flag standing for
    [(lastBidTime + 600) mod 2^64 <= now mod 2^64] at the time of the call,
    which is [lastBidTime + 600 <= now] whenever [lastBidTime + 600] and
    [now] fit 64 bits; 600 is a constant of the code. The call stores
    nothing in the registry, and unless the wrapped deadline is 0 a second
    call at another time on the unchanged auction returns the other
    answer. *)
Theorem checkEnded_recomputed txs id env :
  let s := run this verify txs init in
  created (auctionAt s id) = true →
  let L := plain (fhe s) (lastBidTime (auctionAt s id)) in
  ∃ ended s',
    checkEnded id env s = Ok (ended, s')
    ∧ plainBool (fhe s') ended
      = ((L + 600) mod 2 ^ 64 <=? uint64 (block_timestamp env))
    ∧ (L + 600 < 2 ^ 64 → 0 ≤ block_timestamp env < 2 ^ 64 →
       plainBool (fhe s') ended = (L + 600 <=? block_timestamp env))
    ∧ auctions s' = auctions s
    ∧ auctionCount s' = auctionCount s
    ∧ leader s' id = leader s id
    ∧ (0 < (L + 600) mod 2 ^ 64 →
       ∃ env2 ended2 s2,
         checkEnded id env2 s' = Ok (ended2, s2)
         ∧ auctions s2 = auctions s
         ∧ plainBool (fhe s2) ended2 ≠ plainBool (fhe s') ended).
Proof.
  intros s Hc L. pose proof (reachable_inv this verify txs) as I. fold s in I.
  destruct (checkEnded_returns id env s I Hc) as (d & h & s' & _ & R & P).
  exists h, s'. split; [done|].
  pose proof (ce_ended _ _ _ _ _ P) as B.
  pose proof (ce_deadline _ _ _ _ _ P) as D0. cbn [fst snd] in B, D0.
  rewrite D0 in B. fold L in B.
  pose proof (ce_extends _ _ _ _ _ P) as X.
  pose proof (ce_auctions _ _ _ _ _ P) as A.
  assert (F : ∀ i, auctionAt s' i = auctionAt s i)
    by (intros i; apply auctionAt_same; by rewrite A).
  destruct (inv_issued s I id) as (_ & I1 & I2 & I3).
  pose proof (inv_time s I id) as T. fold L in T.
  repeat apply conj; try done.
  - intros H1 H2. rewrite B, uint64_small by done.
    by rewrite Z.mod_small by lia.
  - apply (ce_count _ _ _ _ _ P).
  - by apply leader_frame.
  - intros D.
    pose proof (Z.mod_pos_bound (L + 600) (2 ^ 64) ltac:(lia)) as Dr.
    pose proof (check_inv _ _ _ _ _ I P) as I'.
    assert (Hc' : created (auctionAt s' id) = true) by (by rewrite F).
    assert (L' : plain (fhe s') (lastBidTime (auctionAt s' id)) = L)
      by (rewrite F; by apply extends_plain).
    set (t2 := if plainBool (fhe s') h then (L + 600) mod 2 ^ 64 - 1
               else (L + 600) mod 2 ^ 64).
    destruct (checkEnded_returns id (mkEnv 0 t2) s' I' Hc')
      as (d2 & h2 & s2 & _ & R2 & P2).
    exists (mkEnv 0 t2), h2, s2. split; [done|].
    split; [by rewrite (ce_auctions _ _ _ _ _ P2)|].
    pose proof (ce_ended _ _ _ _ _ P2) as B2.
    pose proof (ce_deadline _ _ _ _ _ P2) as D2.
    cbn [fst snd block_timestamp] in B2, D2.
    rewrite D2, L' in B2. rewrite B2. subst t2.
    destruct (plainBool (fhe s') h).
    + rewrite uint64_small by lia.
      destruct (Z.leb_spec ((L + 600) mod 2 ^ 64) ((L + 600) mod 2 ^ 64 - 1));
        [lia | done].
    + rewrite uint64_small by lia. by rewrite Z.leb_refl.
Qed.

(** C10. In every reachable state, the deadline that [checkEnded] computes
    for an existing auction stands for the 64-bit wrapping sum
    [(lastBidTime + 600) mod 2^64], and the returned flag compares that
    value with the current 64-bit time. When [lastBidTime] exceeds
    [2^64 - 601] the deadline is [lastBidTime + 600 - 2^64], short of the
    true one, and it is this wrapped value that the flag is computed from. *)
Theorem deadline_wraps txs id env :
  let s := run this verify txs init in
  created (auctionAt s id) = true →
  let L := plain (fhe s) (lastBidTime (auctionAt s id)) in
  ∃ deadline ended s',
    checkEndedBody id env s = Ok ((deadline, ended), s')
    ∧ checkEnded id env s = Ok (ended, s')
    ∧ 0 ≤ L < 2 ^ 64
    ∧ plain (fhe s') deadline = (L + 600) mod 2 ^ 64
    ∧ plainBool (fhe s') ended
      = (plain (fhe s') deadline <=? uint64 (block_timestamp env))
    ∧ (L ≤ 2 ^ 64 - 601 → plain (fhe s') deadline = L + 600)
    ∧ (2 ^ 64 - 601 < L →
       plain (fhe s') deadline = L + 600 - 2 ^ 64
       ∧ plain (fhe s') deadline < L + 600
       ∧ plainBool (fhe s') ended
         = (L + 600 - 2 ^ 64 <=? uint64 (block_timestamp env))).
Proof.
  intros s Hc L. pose proof (reachable_inv this verify txs) as I. fold s in I.
  destruct (checkEnded_returns id env s I Hc) as (d & h & s' & R0 & R & P).
  exists d, h, s'.
  pose proof (ce_ended _ _ _ _ _ P) as B.
  pose proof (ce_deadline _ _ _ _ _ P) as D. cbn [fst snd] in B, D. fold L in D.
  pose proof (inv_time s I id) as T. fold L in T.
  repeat apply conj; try done; try lia.
  - intros H. rewrite D. apply Z.mod_small. lia.
  - intros H. rewrite B, D, wrap_sum by done.
    repeat split; lia.
Qed.

(** C6. In every reachable state and for every call that returns, an
    existing auction is either left with the record and the leader values
    it had, or the call is a bid on it, and then all three of
    [highestBid], [highestBidder] and [lastBidTime] hold handles issued
    during that call, and the three values behind them are chosen by the
    one returned flag: the bid, its sender and its time if the flag
    stands for true, the three previous values if not. No call changes
    one of the three alone. *)
Theorem leader_fields_move_together txs env c id :
  let s := run this verify txs init in
  created (auctionAt s id) = true →
  match call this verify c env s with
  | Err _ => True
  | Ok (r, s') =>
      (auctionAt s' id = auctionAt s id ∧ leader s' id = leader s id)
      ∨ (∃ ext proof v isHighest,
           c = Bid id ext proof
           ∧ verify (msg_sender env) ext proof = Some v
           ∧ r = VHandle isHighest
           ∧ highestBid (auctionAt s' id) ≠ highestBid (auctionAt s id)
           ∧ highestBidder (auctionAt s' id) ≠ highestBidder (auctionAt s id)
           ∧ lastBidTime (auctionAt s' id) ≠ lastBidTime (auctionAt s id)
           ∧ ¬ issued (fhe s) (highestBid (auctionAt s' id))
           ∧ ¬ issued (fhe s) (highestBidder (auctionAt s' id))
           ∧ ¬ issued (fhe s) (lastBidTime (auctionAt s' id))
           ∧ plainBool (fhe s') isHighest
             = (plain (fhe s) (highestBid (auctionAt s id)) <? v)
           ∧ leader s' id
             = if plainBool (fhe s') isHighest
               then (v, msg_sender env, uint64 (block_timestamp env))
               else leader s id)
  end.
Proof.
  intros s Hc. pose proof (reachable_inv this verify txs) as I. fold s in I.
  pose proof (call_effect this verify c env s I) as P.
  destruct (call this verify c env s) as [[r s']|]; [|done].
  destruct (inv_issued s I id) as (I0 & I1 & I2 & I3).
  assert (Same : ∀ s2, auctions s2 !! id = auctions s !! id →
            extends (fhe s) (fhe s2) →
            auctionAt s2 id = auctionAt s id ∧ leader s2 id = leader s id).
  { intros s2 E X. pose proof (auctionAt_same _ _ _ E) as F.
    split; [done|]. by apply leader_frame. }
  destruct c as [n p|i|i|i|i ext proof|i]; cbn in P.
  - destruct P as (id' & _ & P). left. apply Same.
    + apply (cp_others _ _ _ _ _ _ _ P).
      rewrite (cp_id _ _ _ _ _ _ _ P). apply (inv_dense s I) in Hc. lia.
    + apply (cp_extends _ _ _ _ _ _ _ P).
  - destruct P as (_ & ->). left. apply Same; [done | apply extends_refl].
  - destruct P as (_ & ->). left. apply Same; [done | apply extends_refl].
  - destruct P as (_ & ->). left. apply Same; [done | apply extends_refl].
  - destruct P as (v & h & _ & Hv & -> & P).
    destruct (Z.eq_dec i id) as [->|Hne].
    + right. exists ext, proof, v, h.
      destruct (bp_replaced _ _ _ _ _ _ _ P) as (N1 & N2 & N3).
      pose proof (bp_flag _ _ _ _ _ _ _ P) as B.
      repeat apply conj; try done.
      * intros E. apply N1. by rewrite E.
      * intros E. apply N2. by rewrite E.
      * intros E. apply N3. by rewrite E.
      * rewrite B. apply (bp_leader _ _ _ _ _ _ _ P).
    + left. apply Same.
      * by apply (bp_others _ _ _ _ _ _ _ P).
      * apply (bp_extends _ _ _ _ _ _ _ P).
  - destruct P as (d & h & _ & _ & P). left. apply Same.
    + by rewrite (ce_auctions _ _ _ _ _ P).
    + apply (ce_extends _ _ _ _ _ P).
Qed.

End Claims.

End Properties.

(** ** The properties at concrete inputs *)

Module Instances.

Import FHE FHEAuction Specs Leader Scenario Properties.

Lemma leader_is_max_witness :
  createAuction this "Widget" 100 (mkEnv alice T0) (run this verify [] init)
  = Ok (1, afterCreate)
  ∧ leader (run this verify bids afterCreate) 1
    = promised 100 (uint64 T0) (bidsOn verify 1 bids).
Proof.
  assert (R : createAuction this "Widget" 100 (mkEnv alice T0)
                (run this verify [] init) = Ok (1, afterCreate))
    by (vm_compute; reflexivity).
  split; [exact R|].
  exact (proj1 (proj2 (leader_is_max this verify [] (mkEnv alice T0)
                         "Widget" 100 1 afterCreate bids R))).
Defined.

Lemma tie_keeps_leader_witness :
  created (auctionAt afterFirstBid 1) = true
  ∧ verify bob 150 [1] = Some 150
  ∧ ∃ isHighest s',
      bid this verify 1 150 [1] (mkEnv bob (T0 + 20)) afterFirstBid
      = Ok (isHighest, s')
      ∧ (150 = plain (fhe afterFirstBid) (highestBid (auctionAt afterFirstBid 1)) →
         leader s' 1 = leader afterFirstBid 1
         ∧ plainBool (fhe s') isHighest = false).
Proof.
  assert (C : created (auctionAt afterFirstBid 1) = true) by (vm_compute; reflexivity).
  assert (V : verify bob 150 [1] = Some 150) by reflexivity.
  split; [exact C|]. split; [exact V|].
  destruct (tie_keeps_leader this verify (widget ++ [firstBid]) 1 150 [1]
              (mkEnv bob (T0 + 20)) 150 C V) as (h & s' & R & Tie & _).
  exists h, s'. split; [exact R | exact Tie].
Defined.

Lemma not_found_closure_witness :
  created (auctionAt afterCreate 999) = false
  ∧ getAuctionInfo 999 afterCreate = Err notFound
  ∧ transact this verify (mkEnv bob T0, Bid 999 150 [1]) afterCreate = afterCreate.
Proof.
  assert (C : created (auctionAt afterCreate 999) = false) by (vm_compute; reflexivity).
  split; [exact C|].
  pose proof (not_found_closure this verify 999 150 [1] (mkEnv bob T0) afterCreate C)
    as (G & _ & _ & _ & _ & _ & _ & _ & B & _).
  split; [exact G | exact B].
Defined.

Lemma ids_dense_witness :
  (∀ id, created (auctionAt afterBids id) = true ↔ 1 ≤ id ≤ auctionCount afterBids)
  ∧ created (auctionAt afterBids 0) = false.
Proof.
  pose proof (ids_dense this verify (widget ++ bids)) as (D & Z0 & _).
  split; [exact D | exact Z0].
Defined.

Lemma checkEnded_recomputed_witness :
  created (auctionAt afterBids 1) = true
  ∧ ∃ ended s',
      checkEnded 1 (mkEnv bob (T0 + 700)) afterBids = Ok (ended, s')
      ∧ plainBool (fhe s') ended
        = ((plain (fhe afterBids) (lastBidTime (auctionAt afterBids 1)) + 600)
           mod 2 ^ 64 <=? uint64 (T0 + 700)).
Proof.
  assert (C : created (auctionAt afterBids 1) = true) by (vm_compute; reflexivity).
  split; [exact C|].
  destruct (checkEnded_recomputed this verify (widget ++ bids) 1
              (mkEnv bob (T0 + 700)) C) as (h & s' & R & B & _).
  exists h, s'. split; [exact R | exact B].
Defined.


Lemma leader_fields_move_together_witness :
  created (auctionAt afterCreate 1) = true
  ∧ match call this verify (Bid 1 150 [1]) (mkEnv alice (T0 + 10)) afterCreate with
    | Err _ => True
    | Ok (r, s') =>
        (auctionAt s' 1 = auctionAt afterCreate 1 ∧ leader s' 1 = leader afterCreate 1)
        ∨ (∃ ext proof v isHighest,
             Bid 1 150 [1] = Bid 1 ext proof
             ∧ verify (msg_sender (mkEnv alice (T0 + 10))) ext proof = Some v
             ∧ r = VHandle isHighest
             ∧ highestBid (auctionAt s' 1) ≠ highestBid (auctionAt afterCreate 1)
             ∧ highestBidder (auctionAt s' 1) ≠ highestBidder (auctionAt afterCreate 1)
             ∧ lastBidTime (auctionAt s' 1) ≠ lastBidTime (auctionAt afterCreate 1)
             ∧ ¬ issued (fhe afterCreate) (highestBid (auctionAt s' 1))
             ∧ ¬ issued (fhe afterCreate) (highestBidder (auctionAt s' 1))
             ∧ ¬ issued (fhe afterCreate) (lastBidTime (auctionAt s' 1))
             ∧ plainBool (fhe s') isHighest
               = (plain (fhe afterCreate) (highestBid (auctionAt afterCreate 1)) <? v)
             ∧ leader s' 1
               = if plainBool (fhe s') isHighest
                 then (v, msg_sender (mkEnv alice (T0 + 10)),
                       uint64 (block_timestamp (mkEnv alice (T0 + 10))))
                 else leader afterCreate 1)
    end.
Proof.
  assert (C : created (auctionAt afterCreate 1) = true) by (vm_compute; reflexivity).
  split; [exact C|].
  exact (leader_fields_move_together this verify widget
           (mkEnv alice (T0 + 10)) (Bid 1 150 [1]) 1 C).
Defined.

Lemma grants_maintained_witness :
  created (auctionAt afterCreate 1) = true
  ∧ verify (msg_sender (mkEnv alice (T0 + 10))) 150 [1] = Some 150
  ∧ auctionCount afterCreate ≠ uint256_max
  ∧ (∃ isHighest s',
       bid this verify 1 150 [1] (mkEnv alice (T0 + 10)) afterCreate
       = Ok (isHighest, s')
       ∧ let a := auctionAt s' 1 in
         (highestBid a, this) ∈ acl (fhe s')
         ∧ (highestBidder a, this) ∈ acl (fhe s')
         ∧ (lastBidTime a, this) ∈ acl (fhe s')
         ∧ (isHighest, msg_sender (mkEnv alice (T0 + 10))) ∈ acl (fhe s')
         ∧ (highestBid a, msg_sender (mkEnv alice (T0 + 10))) ∈ acl (fhe s')
         ∧ (highestBidder a, msg_sender (mkEnv alice (T0 + 10))) ∈ acl (fhe s')
         ∧ (lastBidTime a, msg_sender (mkEnv alice (T0 + 10))) ∈ acl (fhe s'))
  ∧ (∃ id s',
       createAuction this "Gadget" 5 (mkEnv bob (T0 + 5)) afterCreate = Ok (id, s')
       ∧ let a := auctionAt s' id in
         (startPrice a, this) ∈ acl (fhe s')
         ∧ (highestBid a, this) ∈ acl (fhe s')
         ∧ (highestBidder a, this) ∈ acl (fhe s')
         ∧ (lastBidTime a, this) ∈ acl (fhe s'))
  ∧ acl (fhe afterCreate) ⊆ acl (fhe (transact this verify firstBid afterCreate)).
Proof.
  assert (C : created (auctionAt afterCreate 1) = true) by (vm_compute; reflexivity).
  assert (V : verify (msg_sender (mkEnv alice (T0 + 10))) 150 [1] = Some 150)
    by reflexivity.
  assert (N : auctionCount afterCreate ≠ uint256_max) by (vm_compute; discriminate).
  destruct (grants_maintained this verify widget) as (B & _ & K & _ & M).
  split; [exact C|]. split; [exact V|]. split; [exact N|].
  split; [exact (B 1 150 [1] (mkEnv alice (T0 + 10)) 150 C V)|].
  split; [exact (K "Gadget" 5 (mkEnv bob (T0 + 5)) N) | exact (M firstBid)].
Defined.

Lemma bid_frame_witness :
  bid this verify 1 150 [1] (mkEnv alice (T0 + 10)) afterCreate
  = Ok (5%nat, afterFirstBid)
  ∧ name (auctionAt afterFirstBid 1) = name (auctionAt afterCreate 1)
  ∧ startPrice (auctionAt afterFirstBid 1) = startPrice (auctionAt afterCreate 1).
Proof.
  assert (R : bid this verify 1 150 [1] (mkEnv alice (T0 + 10)) afterCreate
              = Ok (5%nat, afterFirstBid)) by (vm_compute; reflexivity).
  split; [exact R|].
  pose proof (bid_frame this verify widget 1 150 [1] (mkEnv alice (T0 + 10))
                5%nat afterFirstBid R) as (N & S & _).
  split; [exact N | exact S].
Defined.


Lemma deadline_wraps_witness :
  created (auctionAt afterLateCreate 1) = true
  ∧ ∃ deadline ended s',
      checkEndedBody 1 (mkEnv bob lastSecond) afterLateCreate
      = Ok ((deadline, ended), s')
      ∧ plain (fhe s') deadline
        = (plain (fhe afterLateCreate) (lastBidTime (auctionAt afterLateCreate 1)) + 600)
          mod 2 ^ 64.
Proof.
  assert (C : created (auctionAt afterLateCreate 1) = true)
    by (vm_compute; reflexivity).
  split; [exact C|].
  destruct (deadline_wraps this verify lateWidget 1 (mkEnv bob lastSecond) C)
    as (d & h & s' & R & _ & _ & D & _).
  exists d, h, s'. split; [exact R | exact D].
Defined.

End Instances.

(** ** Grants, call by call *)

Module Access.

Import FHE FHEAuction Specs Observations FHEFacts Logic Effects Invariants.

Lemma wp_both {A} (m : M A) (Q1 Q2 : A → State → Prop) s :
  wp m Q1 s → wp m Q2 s → wp m (fun a s' => Q1 a s' ∧ Q2 a s') s.
Proof. unfold wp. destruct (m s) as [[a s']|]; [done | done]. Qed.

Section Calls.

Variable this : address.
Variable verify : address → Z → list Z → option Z.

Lemma bid_grants_wp id ext proof env s v :
  created (auctionAt s id) = true →
  verify (msg_sender env) ext proof = Some v →
  wp (bid this verify id ext proof env) (BidGrants this env id s) s.
Proof.
  intros Hc Hv. unfold bid, allowThis.
  do 3 wp_pure. rewrite Hc. repeat wp_pure.
  eapply wp_importBid; [exact Hv|]. intros encBid e1 H1. apply fresh_spec in H1.
  repeat wp_pure. wp_fresh isH e2 H2.
  repeat wp_pure. wp_fresh h1 e3 H3.
  repeat wp_pure. wp_fresh me e4 H4. repeat wp_pure. wp_fresh h2 e5 H5.
  repeat wp_pure. wp_fresh now e6 H6. repeat wp_pure. wp_fresh h3 e7 H7.
  repeat wp_pure. fields.
  destruct H1 as (_ & J1 & N1 & X1 & A1), H2 as (_ & J2 & N2 & X2 & A2),
    H3 as (_ & J3 & N3 & X3 & A3), H4 as (_ & J4 & N4 & X4 & A4),
    H5 as (_ & J5 & N5 & X5 & A5), H6 as (_ & J6 & N6 & X6 & A6),
    H7 as (_ & J7 & N7 & X7 & A7).
  split; cbn [fhe auctions auctionCount events];
    rewrite ?auctionAt_stored; fields.
  - intros x. cbn [acl allow]. rewrite A7, A6, A5, A4, A3, A2, A1.
    clear. rewrite !elem_of_union, !elem_of_singleton. tauto.
  - intros I. apply N2. issued_solve.
  - apply allow_issued. repeat rewrite allow_issued. issued_solve.
Qed.

Lemma createAuction_grants_wp n p env s :
  auctionCount s ≠ uint256_max →
  wp (createAuction this n p env)
     (fun id s' => CreateGrants this s id s') s.
Proof.
  intros Hn. unfold createAuction, allowThis.
  apply wp_bind, wp_nextId; [done|]. repeat wp_pure.
  wp_fresh encStart e1 H1. repeat wp_pure. wp_fresh encBidder e2 H2.
  repeat wp_pure. wp_fresh encNow e3 H3. repeat wp_pure. fields.
  destruct H1 as (_ & _ & _ & _ & A1), H2 as (_ & _ & _ & _ & A2),
    H3 as (_ & _ & _ & _ & A3).
  split; cbn [fhe auctions auctionCount events];
    rewrite ?auctionAt_stored; fields.
  intros x. cbn [acl allow]. rewrite A3, A2, A1. clear. rewrite !elem_of_union, !elem_of_singleton. tauto.
Qed.

Lemma checkEndedBody_grants_wp id env s :
  created (auctionAt s id) = true →
  wp (checkEndedBody id env) (CheckGrants env s) s.
Proof.
  intros Hc. unfold checkEndedBody.
  do 3 wp_pure. rewrite Hc. repeat wp_pure.
  wp_fresh window e1 H1. repeat wp_pure. wp_fresh deadline e2 H2.
  repeat wp_pure. wp_fresh now e3 H3. repeat wp_pure. wp_fresh ended e4 H4.
  repeat wp_pure.
  destruct H1 as (_ & J1 & N1 & X1 & A1), H2 as (_ & J2 & N2 & X2 & A2),
    H3 as (_ & J3 & N3 & X3 & A3), H4 as (_ & J4 & N4 & X4 & A4).
  split; cbn [fhe auctions auctionCount events fst snd].
  - intros x. cbn [acl allow]. rewrite A4, A3, A2, A1. clear. rewrite !elem_of_union, !elem_of_singleton. tauto.
  - intros I. apply N4. issued_solve.
  - by apply allow_issued.
Qed.

Lemma ret_inv {A B} (m : M A) (f : A → B) s r s' :
  (let* x := m in ret (f x)) s = Ok (r, s') →
  ∃ a, m s = Ok (a, s') ∧ r = f a.
Proof.
  unfold bind, ret. destruct (m s) as [[a s1]|]; [|done].
  intros [= <- <-]. eauto.
Qed.

Lemma same_result {A} (m : M A) (Q : A → State → Prop) s a s' :
  wp m Q s → m s = Ok (a, s') → Q a s'.
Proof. unfold wp. intros H E. by rewrite E in H. Qed.

Lemma bid_grants id ext proof env s h s' :
  bid this verify id ext proof env s = Ok (h, s') → BidGrants this env id s h s'.
Proof.
  intros R. destruct (created (auctionAt s id)) eqn:Hc.
  2: by rewrite (bid_missing this verify id ext proof env s Hc) in R.
  destruct (verify (msg_sender env) ext proof) as [v|] eqn:Hv.
  2: by rewrite (bid_rejected this verify id ext proof env s Hc Hv) in R.
  exact (same_result _ _ _ _ _ (bid_grants_wp id ext proof env s v Hc Hv) R).
Qed.

Lemma create_grants n p env s id s' :
  createAuction this n p env s = Ok (id, s') → CreateGrants this s id s'.
Proof.
  intros R. destruct (Z.eq_dec (auctionCount s) uint256_max) as [E|E].
  - by rewrite (createAuction_overflow this n p env s E) in R.
  - exact (same_result _ _ _ _ _ (createAuction_grants_wp n p env s E) R).
Qed.

Lemma check_grants id env s r s' :
  checkEndedBody id env s = Ok (r, s') → CheckGrants env s r s'.
Proof.
  intros R. destruct (created (auctionAt s id)) eqn:Hc.
  - exact (same_result _ _ _ _ _ (checkEndedBody_grants_wp id env s Hc) R).
  - unfold checkEndedBody in R.
    by rewrite (bind_err _ _ _ _ (guard_missing id s Hc)) in R.
Qed.

Lemma check_effect id env s r s' :
  inv s → checkEndedBody id env s = Ok (r, s') →
  created (auctionAt s id) = true ∧ CheckPost env id s r s'.
Proof.
  intros I R. destruct (created (auctionAt s id)) eqn:Hc.
  - split; [done|]. destruct (inv_issued s I id) as (_ & _ & _ & I3).
    exact (same_result _ _ _ _ _ (checkEndedBody_wp id env s Hc I3) R).
  - unfold checkEndedBody in R.
    by rewrite (bind_err _ _ _ _ (guard_missing id s Hc)) in R.
Qed.

(** Reasoning over all reachable states. *)
Lemma reachable_ind (P : State → Prop) :
  P init →
  (∀ s env c r s',
     inv s → P s → call this verify c env s = Ok (r, s') → P s') →
  ∀ txs, P (run this verify txs init).
Proof.
  intros P0 Step txs.
  assert (G : ∀ s, inv s → P s → P (run this verify txs s)).
  { induction txs as [|[env c] txs IH]; intros s I Ps; [done|].
    cbn. apply IH; [by apply transact_inv|].
    unfold transact. cbn [fst snd].
    destruct (call this verify c env s) as [[r s']|] eqn:R; [|done].
    by eapply Step. }
  apply G; [apply init_inv | done].
Qed.

Lemma lastBidder_snoc_bid id i b evs :
  lastBidder id (evs ++ [BidSubmitted i b])
  = if i =? id then Some b else lastBidder id evs.
Proof.
  unfold lastBidder. rewrite omap_app. cbn.
  destruct (i =? id); [by rewrite last_snoc | by rewrite app_nil_r].
Qed.

Lemma lastBidder_snoc_created id i n evs :
  lastBidder id (evs ++ [AuctionCreated i n]) = lastBidder id evs.
Proof. unfold lastBidder. rewrite omap_app. cbn. by rewrite app_nil_r. Qed.

Lemma access_frame s s' :
  inv s → access this s →
  extends (fhe s) (fhe s') →
  (∀ h p, (h, p) ∈ acl (fhe s') →
          (h, p) ∈ acl (fhe s) ∨ (¬ issued (fhe s) h ∧ issued (fhe s') h)) →
  (∀ i, created (auctionAt s' i) = true →
        (auctionAt s' i = auctionAt s i
         ∧ lastBidder i (events s') = lastBidder i (events s))
        ∨ guarded this s' i) →
  access this s'.
Proof.
  intros I A X New Each. split.
  - intros h p Hin. destruct (New h p Hin) as [Old|[_ J]]; [|done].
    eapply extends_issued; [done|]. by eapply (ac_issued this s A).
  - intros i Hc. destruct (Each i Hc) as [[E L]|G]; [|apply G].
    rewrite E in Hc |- *.
    destruct (ac_this this s A i Hc) as (G0 & G1 & G2 & G3).
    repeat split; by eapply extends_acl.
  - intros i p Hc Hin. destruct (Each i Hc) as [[E L]|G]; [|by apply G].
    rewrite E in Hc, Hin.
    destruct (inv_issued s I i) as (I0 & _).
    destruct (New _ _ Hin) as [Old|[N _]]; [|done].
    by apply (ac_start this s A i).
  - intros i p Hc Hin. destruct (Each i Hc) as [[E L]|G]; [|by apply G].
    rewrite E in Hc, Hin. rewrite L.
    destruct (inv_issued s I i) as (_ & I1 & I2 & I3).
    apply (ac_leader this s A i p Hc).
    destruct Hin as [Hin|[Hin|Hin]]; destruct (New _ _ Hin) as [Old|[N _]];
      try done; tauto.
Qed.

Lemma init_access : access this init.
Proof.
  split; cbn.
  - intros h p Hin. by apply not_elem_of_empty in Hin.
  - intros id. unfold auctionAt. cbn. by rewrite lookup_empty.
  - intros id p. unfold auctionAt. cbn. by rewrite lookup_empty.
  - intros id p. unfold auctionAt. cbn. by rewrite lookup_empty.
Qed.

Lemma create_access env n p s id s' :
  inv s → access this s →
  CreatePost this env n p s id s' → CreateGrants this s id s' → access this s'.
Proof.
  intros I A P G.
  destruct (cp_new _ _ _ _ _ _ _ P) as (N0 & N2 & N3).
  destruct (cp_issued _ _ _ _ _ _ _ P) as (J0 & J1 & J2 & J3).
  pose proof (cp_same _ _ _ _ _ _ _ P) as Same.
  assert (Old : ∀ h q, (h, q) ∈ acl (fhe s) → issued (fhe s) h)
    by apply (ac_issued this s A).
  apply (access_frame s s' I A (cp_extends _ _ _ _ _ _ _ P)).
  - intros h q Hin. apply (cg_acl _ _ _ _ G) in Hin.
    destruct Hin as [?|[E|[E|E]]]; [by left | | |];
      injection E as -> ->; by right.
  - intros i Hc. destruct (Z.eq_dec i id) as [->|Hne].
    + right. split; [apply (cp_acl_this _ _ _ _ _ _ _ P)|]. split.
      * intros q Hin. apply (cg_acl _ _ _ _ G) in Hin.
        destruct Hin as [Hin|[E|[E|E]]]; [|by injection E..].
        destruct (N0 (Old _ _ Hin)).
      * intros q Hin. rewrite Same in Hin.
        destruct Hin as [Hin|[Hin|Hin]]; apply (cg_acl _ _ _ _ G) in Hin;
          (destruct Hin as [Hin|[E|[E|E]]]; [|left; by injection E..]).
        -- destruct (N0 (Old _ _ Hin)).
        -- destruct (N2 (Old _ _ Hin)).
        -- destruct (N3 (Old _ _ Hin)).
    + left. split.
      * apply auctionAt_same, (cp_others _ _ _ _ _ _ _ P i Hne).
      * rewrite (cp_events _ _ _ _ _ _ _ P). apply lastBidder_snoc_created.
Qed.

Lemma bid_access env id v s h s' :
  inv s → access this s → created (auctionAt s id) = true →
  BidPost this env id v s h s' → BidGrants this env id s h s' → access this s'.
Proof.
  intros I A Hc P G.
  destruct (bp_replaced _ _ _ _ _ _ _ P) as (N1 & N2 & N3).
  destruct (bp_issued _ _ _ _ _ _ _ P) as (J1 & J2 & J3).
  pose proof (bg_flag_new _ _ _ _ _ _ G) as NF.
  pose proof (bg_flag_issued _ _ _ _ _ _ G) as JF.
  pose proof (bp_startPrice _ _ _ _ _ _ _ P) as SP.
  destruct (inv_issued s I id) as (I0 & _).
  assert (Old : ∀ x q, (x, q) ∈ acl (fhe s) → issued (fhe s) x)
    by apply (ac_issued this s A).
  assert (Who : ∀ x q, (x, q) ∈ acl (fhe s') →
            (x, q) ∈ acl (fhe s)
            ∨ (¬ issued (fhe s) x ∧ issued (fhe s') x
               ∧ (q = this ∨ q = msg_sender env))).
  { intros x q Hin. apply (bg_acl _ _ _ _ _ _ G) in Hin.
    destruct Hin as [?|[E|[E|[E|[E|[E|[E|E]]]]]]]; [by left|..];
      injection E as -> ->; right; tauto. }
  assert (L : lastBidder id (events s') = Some (msg_sender env)).
  { rewrite (bp_events _ _ _ _ _ _ _ P), lastBidder_snoc_bid.
    by rewrite Z.eqb_refl. }
  apply (access_frame s s' I A (bp_extends _ _ _ _ _ _ _ P)).
  - intros x q Hin. destruct (Who x q Hin) as [?|(? & ? & _)]; tauto.
  - intros i Hi. destruct (Z.eq_dec i id) as [->|Hne].
    + right. split.
      { destruct (bp_acl_this _ _ _ _ _ _ _ P) as (? & ? & ?).
        split; [|done]. rewrite SP. apply (bg_acl _ _ _ _ _ _ G). left.
        apply (ac_this this s A id Hc). }
      split.
      * intros q Hin. rewrite SP in Hin.
        destruct (Who _ _ Hin) as [Hin'|(N & _)]; [|done].
        by apply (ac_start this s A id).
      * intros q Hin. rewrite L.
        destruct Hin as [Hin|[Hin|Hin]];
          (destruct (Who _ _ Hin) as [Hin'|(_ & _ & [->| ->])];
           [|by left|by right]).
        -- destruct (N1 (Old _ _ Hin')).
        -- destruct (N2 (Old _ _ Hin')).
        -- destruct (N3 (Old _ _ Hin')).
    + left. split.
      * apply auctionAt_same, (bp_others _ _ _ _ _ _ _ P i Hne).
      * rewrite (bp_events _ _ _ _ _ _ _ P), lastBidder_snoc_bid.
        destruct (Z.eqb_spec id i); [congruence | done].
Qed.

Lemma check_access env id s r s' :
  inv s → access this s →
  CheckPost env id s r s' → CheckGrants env s r s' → access this s'.
Proof.
  intros I A P G.
  apply (access_frame s s' I A (ce_extends _ _ _ _ _ P)).
  - intros x q Hin. apply (kg_acl _ _ _ _ G) in Hin.
    destruct Hin as [?|E]; [by left|]. injection E as -> ->. right.
    split; [apply (kg_new _ _ _ _ G) | apply (kg_issued _ _ _ _ G)].
  - intros i Hi. left. split.
    + apply auctionAt_same. by rewrite (ce_auctions _ _ _ _ _ P).
    + by rewrite (ce_events _ _ _ _ _ P).
Qed.

Lemma call_access c env s r s' :
  inv s → access this s →
  call this verify c env s = Ok (r, s') → access this s'.
Proof.
  intros I A R. pose proof (call_effect this verify c env s I) as P.
  rewrite R in P. destruct c as [n p|i|i|i|i ext proof|i]; cbn in P.
  - destruct P as (id & -> & P). cbn [call] in R.
    apply ret_inv in R as (id' & R & [= <-]).
    eapply create_access; [done..|]. by eapply create_grants.
  - by destruct P as (_ & ->).
  - by destruct P as (_ & ->).
  - by destruct P as (_ & ->).
  - destruct P as (v & h & Hc & _ & -> & P). cbn [call] in R.
    apply ret_inv in R as (h' & R & [= <-]).
    eapply bid_access; [done..|]. by eapply bid_grants.
  - cbn [call] in R. apply ret_inv in R as (h' & R & ->).
    unfold checkEnded in R. apply ret_inv in R as (r & R & ->).
    destruct (check_effect i env s r s' I R) as (_ & Q).
    eapply check_access; [done..|]. by eapply check_grants.
Qed.

(** Every reachable state keeps the two invariants. *)
Lemma reachable_access txs :
  access this (run this verify txs init).
Proof.
  apply reachable_ind; [apply init_access|].
  intros s env c r s' I A R. by eapply call_access.
Qed.

End Calls.

End Access.

(** ** How calls compose *)

Module Composition.

Import FHE FHEAuction Specs Observations Leader.
Import FHEFacts Logic Effects Invariants LeaderFacts Access.

Section Calls.

Variable this : address.
Variable verify : address → Z → list Z → option Z.

(** The fields of an existing auction that no call writes. *)
Lemma call_static c env s r s' :
  inv s → call this verify c env s = Ok (r, s') →
  extends (fhe s) (fhe s')
  ∧ events s' = events s ++ emitted c env r
  ∧ ∀ i, created (auctionAt s i) = true →
         created (auctionAt s' i) = true
         ∧ name (auctionAt s' i) = name (auctionAt s i)
         ∧ createdAt (auctionAt s' i) = createdAt (auctionAt s i)
         ∧ startPrice (auctionAt s' i) = startPrice (auctionAt s i).
Proof.
  intros I R. pose proof (call_effect this verify c env s I) as P.
  rewrite R in P. destruct c as [n p|j|j|j|j ext proof|j]; cbn in P.
  - destruct P as (id & -> & P). split; [apply (cp_extends _ _ _ _ _ _ _ P)|].
    split; [apply (cp_events _ _ _ _ _ _ _ P)|].
    intros i Hc.
    assert (Hne : i ≠ id).
    { rewrite (cp_id _ _ _ _ _ _ _ P). apply (inv_dense s I) in Hc. lia. }
    by rewrite (auctionAt_same _ _ _ (cp_others _ _ _ _ _ _ _ P i Hne)).
  - destruct P as (_ & ->). cbn. by rewrite app_nil_r; eauto using extends_refl.
  - destruct P as (_ & ->). cbn. by rewrite app_nil_r; eauto using extends_refl.
  - destruct P as (_ & ->). cbn. by rewrite app_nil_r; eauto using extends_refl.
  - destruct P as (v & h & Hj & _ & -> & P).
    split; [apply (bp_extends _ _ _ _ _ _ _ P)|].
    split; [apply (bp_events _ _ _ _ _ _ _ P)|].
    intros i Hc. destruct (Z.eq_dec i j) as [->|Hne].
    + rewrite (bp_created _ _ _ _ _ _ _ P), (bp_name _ _ _ _ _ _ _ P),
        (bp_createdAt _ _ _ _ _ _ _ P), (bp_startPrice _ _ _ _ _ _ _ P). done.
    + by rewrite (auctionAt_same _ _ _ (bp_others _ _ _ _ _ _ _ P i Hne)).
  - destruct P as (d & h & _ & -> & P).
    split; [apply (ce_extends _ _ _ _ _ P)|].
    split; [cbn; by rewrite app_nil_r, (ce_events _ _ _ _ _ P)|].
    intros i Hc.
    assert (E : auctionAt s' i = auctionAt s i)
      by (apply auctionAt_same; by rewrite (ce_auctions _ _ _ _ _ P)).
    by rewrite E.
Qed.

Lemma run_static txs s :
  inv s →
  extends (fhe s) (fhe (run this verify txs s))
  ∧ ∀ i, created (auctionAt s i) = true →
         created (auctionAt (run this verify txs s) i) = true
         ∧ name (auctionAt (run this verify txs s) i) = name (auctionAt s i)
         ∧ createdAt (auctionAt (run this verify txs s) i) = createdAt (auctionAt s i)
         ∧ startPrice (auctionAt (run this verify txs s) i) = startPrice (auctionAt s i).
Proof.
  revert s. induction txs as [|[env c] txs IH]; intros s I.
  { split; [apply extends_refl | done]. }
  cbn [run fold_left].
  fold (run this verify txs (transact this verify (env, c) s)).
  destruct (IH _ (transact_inv this verify (env, c) s I)) as (X & F).
  unfold transact in *. cbn [fst snd] in *.
  destruct (call this verify c env s) as [[r s']|] eqn:R; [|done].
  destruct (call_static c env s r s' I R) as (X1 & _ & F1).
  split; [by eapply extends_trans|].
  intros i Hc. destruct (F1 i Hc) as (C1 & N1 & T1 & S1).
  destruct (F i C1) as (C2 & N2 & T2 & S2).
  by rewrite N2, T2, S2.
Qed.

(** The leading bid never falls below the start price. *)
Lemma reachable_floor txs i :
  created (auctionAt (run this verify txs init) i) = true →
  plain (fhe (run this verify txs init)) (startPrice (auctionAt (run this verify txs init) i))
  ≤ plain (fhe (run this verify txs init)) (highestBid (auctionAt (run this verify txs init) i)).
Proof.
  revert i. apply (reachable_ind this verify (fun s => ∀ i,
    created (auctionAt s i) = true →
    plain (fhe s) (startPrice (auctionAt s i))
    ≤ plain (fhe s) (highestBid (auctionAt s i)))).
  { intros i. unfold auctionAt. cbn. by rewrite lookup_empty. }
  intros s env c r s' I F R i Hc.
  pose proof (call_effect this verify c env s I) as P. rewrite R in P.
  assert (Keep : auctions s' !! i = auctions s !! i →
                 extends (fhe s) (fhe s') →
                 plain (fhe s') (startPrice (auctionAt s' i))
                 ≤ plain (fhe s') (highestBid (auctionAt s' i))).
  { intros E X. pose proof (auctionAt_same _ _ _ E) as E'.
    rewrite E' in Hc |- *. destruct (inv_issued s I i) as (I0 & I1 & _).
    rewrite !(extends_plain (fhe s) (fhe s')) by done. by apply F. }
  destruct c as [n p|j|j|j|j ext proof|j]; cbn in P.
  - destruct P as (id & _ & P). destruct (Z.eq_dec i id) as [->|Hne].
    + rewrite (cp_same _ _ _ _ _ _ _ P). lia.
    + apply Keep; [by apply (cp_others _ _ _ _ _ _ _ P)|].
      apply (cp_extends _ _ _ _ _ _ _ P).
  - destruct P as (_ & ->). by apply F.
  - destruct P as (_ & ->). by apply F.
  - destruct P as (_ & ->). by apply F.
  - destruct P as (v & h & Hj & _ & _ & P). destruct (Z.eq_dec i j) as [->|Hne].
    + pose proof (bp_leader _ _ _ _ _ _ _ P) as L. unfold leader in L.
      destruct (inv_issued s I j) as (I0 & _).
      rewrite (bp_startPrice _ _ _ _ _ _ _ P),
        (extends_plain (fhe s) (fhe s')) by (done || apply (bp_extends _ _ _ _ _ _ _ P)).
      specialize (F j Hj).
      destruct (Z.ltb_spec (plain (fhe s) (highestBid (auctionAt s j))) v);
        injection L as -> _ _; lia.
    + apply Keep; [by apply (bp_others _ _ _ _ _ _ _ P)|].
      apply (bp_extends _ _ _ _ _ _ _ P).
  - destruct P as (d & h & _ & _ & P).
    apply Keep; [by rewrite (ce_auctions _ _ _ _ _ P)|].
    apply (ce_extends _ _ _ _ _ P).
Qed.

End Calls.

End Composition.

(** ** Further properties of the contract *)

Module Behaviour.

Import FHE FHEAuction Specs Observations Leader.
Import FHEFacts Logic Effects Invariants LeaderFacts Access Composition.

Section Calls.

Variable this : address.
Variable verify : address → Z → list Z → option Z.

(** X1. Once [createAuction] has returned [id], whatever calls follow,
    [getAuctionInfo id] returns the name given and the block timestamp of
    the creation and leaves the state alone, and the start-price handle of
    the auction and the value behind it never change. *)
Theorem info_is_permanent pre env0 n p id s1 post :
  createAuction this n p env0 (run this verify pre init) = Ok (id, s1) →
  let s := run this verify post s1 in
  getAuctionInfo id s = Ok ((n, block_timestamp env0), s)
  ∧ startPrice (auctionAt s id) = startPrice (auctionAt s1 id)
  ∧ plain (fhe s) (startPrice (auctionAt s id)) = p.
Proof.
  intros R s.
  pose proof (create_effect this _ _ _ _ _ _ R) as P.
  pose proof (create_inv this _ _ _ _ _ _ (reachable_inv this verify pre) P) as I1.
  destruct (run_static this verify post s1 I1) as (X & F).
  destruct (F id (cp_created _ _ _ _ _ _ _ P)) as (C & N & T & S). fold s in C, N, T, S, X.
  split.
  - rewrite (getAuctionInfo_present id s C), N, T.
    by rewrite (cp_name _ _ _ _ _ _ _ P), (cp_createdAt _ _ _ _ _ _ _ P).
  - split; [done|]. rewrite S.
    destruct (cp_issued _ _ _ _ _ _ _ P) as (J0 & _).
    rewrite (extends_plain (fhe s1) (fhe s)) by done.
    apply (cp_start _ _ _ _ _ _ _ P).
Qed.


(** X3. In every reachable state, the only principal granted on the
    start-price handle of an existing auction is the contract, and the only
    principals granted on its current [highestBid], [highestBidder] and
    [lastBidTime] handles are the contract and the sender of the latest bid
    on that auction recorded in the event log (whether or not that bid
    leads); before any bid, the contract alone. *)
Theorem leader_readers txs id p :
  let s := run this verify txs init in
  created (auctionAt s id) = true →
  ((startPrice (auctionAt s id), p) ∈ acl (fhe s) → p = this)
  ∧ ((highestBid (auctionAt s id), p) ∈ acl (fhe s)
     ∨ (highestBidder (auctionAt s id), p) ∈ acl (fhe s)
     ∨ (lastBidTime (auctionAt s id), p) ∈ acl (fhe s) →
     p = this ∨ lastBidder id (events s) = Some p)
  ∧ (lastBidder id (events s) = None →
     (highestBid (auctionAt s id), p) ∈ acl (fhe s)
     ∨ (highestBidder (auctionAt s id), p) ∈ acl (fhe s)
     ∨ (lastBidTime (auctionAt s id), p) ∈ acl (fhe s) →
     p = this).
Proof.
  intros s Hc. pose proof (reachable_access this verify txs) as A. fold s in A.
  split; [apply (ac_start this s A id p Hc)|].
  split; [apply (ac_leader this s A id p Hc)|].
  intros Hn Hin. destruct (ac_leader this s A id p Hc Hin) as [?|E]; [done|].
  rewrite Hn in E. discriminate.
Qed.

(** X4. In every reachable state, a call that returns appends to the event
    log exactly: one [AuctionCreated] with the new id and the name for
    [createAuction], one [BidSubmitted] with the id and the sender for [bid]
    (whether or not the bid leads), and nothing for [checkEnded] and the
    three getters; a call that reverts leaves the log as it was. *)
Theorem one_event_per_change txs c env :
  let s := run this verify txs init in
  match call this verify c env s with
  | Ok (r, s') => events s' = events s ++ emitted c env r
  | Err _ => events (transact this verify (env, c) s) = events s
  end.
Proof.
  intros s. pose proof (reachable_inv this verify txs) as I. fold s in I.
  unfold transact. cbn [fst snd].
  destruct (call this verify c env s) as [[r s']|] eqn:R; [|done].
  apply (call_static this verify c env s r s' I R).
Qed.

(** X5. In every reachable state the [AuctionCreated] events of the log
    are, in order, one for each id from 1 to [auctionCount], each carrying
    the name the registry holds for that id: the log and the registry tell
    the same story. *)
Theorem created_log_matches_registry txs :
  let s := run this verify txs init in
  createdLog (events s)
  = map (fun i => (i, name (auctionAt s i))) (seqZ 1 (auctionCount s)).
Proof.
  apply (reachable_ind this verify (fun s =>
    createdLog (events s)
    = map (fun i => (i, name (auctionAt s i))) (seqZ 1 (auctionCount s)))).
  { done. }
  intros s env c r s' I L R.
  destruct (call_static this verify c env s r s' I R) as (_ & Ev & F).
  assert (Same : map (fun i => (i, name (auctionAt s' i))) (seqZ 1 (auctionCount s))
                 = map (fun i => (i, name (auctionAt s i))) (seqZ 1 (auctionCount s))).
  { apply map_ext_in. intros i Hi. apply list_elem_of_In, elem_of_seqZ in Hi.
    assert (Hc : created (auctionAt s i) = true) by (apply (inv_dense s I); lia).
    destruct (F i Hc) as (_ & -> & _). done. }
  pose proof (call_effect this verify c env s I) as P. rewrite R in P.
  rewrite Ev. unfold createdLog in *. rewrite omap_app, L.
  pose proof (inv_count s I) as C.
  destruct c as [n p|j|j|j|j ext proof|j]; cbn in P.
  - destruct P as (id & -> & P). cbn.
    rewrite (cp_count _ _ _ _ _ _ _ P), seqZ_app, map_app by lia.
    rewrite Same. f_equal.
    replace (1 + auctionCount s) with id by (rewrite (cp_id _ _ _ _ _ _ _ P); lia).
    rewrite seqZ_cons, seqZ_nil by lia. cbn.
    by rewrite (cp_name _ _ _ _ _ _ _ P).
  - destruct P as (_ & ->). cbn. by rewrite app_nil_r.
  - destruct P as (_ & ->). cbn. by rewrite app_nil_r.
  - destruct P as (_ & ->). cbn. by rewrite app_nil_r.
  - destruct P as (v & h & _ & _ & _ & P). cbn.
    by rewrite app_nil_r, (bp_count _ _ _ _ _ _ _ P), Same.
  - destruct P as (d & h & _ & -> & P). cbn.
    by rewrite app_nil_r, (ce_count _ _ _ _ _ P), Same.
Qed.

(** X6. In every reachable state the value behind [highestBid] of an
    existing auction is at least the value behind its [startPrice], and no
    transaction, returning or reverting, lowers it. *)
Theorem highest_bid_never_falls txs t id :
  let s := run this verify txs init in
  created (auctionAt s id) = true →
  plain (fhe s) (startPrice (auctionAt s id))
  ≤ plain (fhe s) (highestBid (auctionAt s id))
  ∧ plain (fhe s) (highestBid (auctionAt s id))
    ≤ plain (fhe (transact this verify t s))
            (highestBid (auctionAt (transact this verify t s) id)).
Proof.
  intros s Hc. split; [by apply reachable_floor|].
  pose proof (reachable_inv this verify txs) as I. fold s in I.
  destruct (transact_leader this verify t s id I Hc) as (_ & L).
  unfold leader in L at 1.
  destruct (offerOf verify id t) as [o|].
  - unfold settle, leader in L. cbn [fst snd] in L.
    destruct (Z.ltb_spec (plain (fhe s) (highestBid (auctionAt s id))) (offerValue o)).
    + destruct o as [[ov ob] ot]. injection L as -> _ _. cbn in *. lia.
    + injection L as -> _ _. lia.
  - unfold leader in L. injection L as -> _ _. lia.
Qed.

(** X10. In every reachable state a call reverts in exactly these cases:
    [createAuction] when the id counter is the largest [uint256] (arithmetic
    panic); the getters, [bid] and [checkEnded] when the id does not exist
    (not found); [bid] on an existing auction when the engine rejects the
    input. A reverted transaction leaves the state untouched, and in every
    other case the call returns. *)
Theorem reverts_exactly_when txs c env :
  let s := run this verify txs init in
  match failure verify c env s with
  | Some e => call this verify c env s = Err e
              ∧ transact this verify (env, c) s = s
  | None => ∃ r s', call this verify c env s = Ok (r, s')
  end.
Proof.
  intros s. pose proof (reachable_inv this verify txs) as I. fold s in I.
  unfold transact. cbn [fst snd].
  destruct c as [n p|j|j|j|j ext proof|j]; cbn [failure call].
  - destruct (Z.eqb_spec (auctionCount s) uint256_max) as [E|E].
    + by rewrite (bind_err _ _ _ _ (createAuction_overflow this n p env s E)).
    + destruct (wp_returns _ _ _ (createAuction_wp this n p env s E))
        as (id & s' & R & _).
      rewrite (bind_ok _ _ _ _ _ R). cbn. eauto.
  - destruct (created (auctionAt s j)) eqn:Hc.
    + rewrite (bind_ok _ _ _ _ _ (getAuctionInfo_present j s Hc)). cbn. eauto.
    + by rewrite (bind_err _ _ _ _ (getAuctionInfo_missing j s Hc)).
  - destruct (created (auctionAt s j)) eqn:Hc.
    + rewrite (bind_ok _ _ _ _ _ (getEncryptedHighestBidder_present j s Hc)).
      cbn. eauto.
    + by rewrite (bind_err _ _ _ _ (getEncryptedHighestBidder_missing j s Hc)).
  - destruct (created (auctionAt s j)) eqn:Hc.
    + rewrite (bind_ok _ _ _ _ _ (getEncryptedHighestBid_present j s Hc)).
      cbn. eauto.
    + by rewrite (bind_err _ _ _ _ (getEncryptedHighestBid_missing j s Hc)).
  - destruct (created (auctionAt s j)) eqn:Hc.
    2: by rewrite (bind_err _ _ _ _ (bid_missing this verify j ext proof env s Hc)).
    destruct (verify (msg_sender env) ext proof) as [v|] eqn:Hv.
    2: by rewrite (bind_err _ _ _ _ (bid_rejected this verify j ext proof env s Hc Hv)).
    destruct (bid_returns this verify j ext proof env s v I Hc Hv) as (h & s' & R & _).
    rewrite (bind_ok _ _ _ _ _ R). cbn. eauto.
  - destruct (created (auctionAt s j)) eqn:Hc.
    2: by rewrite (bind_err _ _ _ _ (checkEnded_missing j env s Hc)).
    destruct (checkEnded_returns j env s I Hc) as (d & h & s' & _ & R & _).
    rewrite (bind_ok _ _ _ _ _ R). cbn. eauto.
Qed.

Lemma checkEnded_inv id env s ended s' :
  inv s → checkEnded id env s = Ok (ended, s') →
  created (auctionAt s id) = true
  ∧ ∃ deadline, CheckPost env id s (deadline, ended) s'.
Proof.
  intros I R. unfold checkEnded in R. apply ret_inv in R as ([d h] & R & ->).
  destruct (check_effect id env s (d, h) s' I R) as (Hc & P). eauto.
Qed.

(** The flag [checkEnded] returns, from the last bid time it finds. *)
Lemma checkEnded_flag id env s :
  inv s → created (auctionAt s id) = true →
  ∃ ended s', checkEnded id env s = Ok (ended, s')
    ∧ plainBool (fhe s') ended
      = ((plain (fhe s) (lastBidTime (auctionAt s id)) + 600) mod 2 ^ 64
         <=? uint64 (block_timestamp env)).
Proof.
  intros I Hc. destruct (checkEnded_returns id env s I Hc) as (d & h & s' & _ & R & P).
  exists h, s'. split; [done|].
  pose proof (ce_ended _ _ _ _ _ P) as B. pose proof (ce_deadline _ _ _ _ _ P) as D.
  cbn [fst snd] in B, D. by rewrite B, D.
Qed.

(** X7. In every reachable state, after a bid on an existing auction that the
    engine accepts, [checkEnded] at any later call is decided by a deadline
    600 seconds (on 64 bits) after the bid's own time if the bid was strictly
    greater than the leader, and by the deadline as it stood before if it
    was not: only a leading bid restarts the clock. *)
Theorem bid_moves_deadline txs id ext proof env v env2 :
  let s := run this verify txs init in
  created (auctionAt s id) = true →
  verify (msg_sender env) ext proof = Some v →
  ∃ isHighest s1 ended s2,
    bid this verify id ext proof env s = Ok (isHighest, s1)
    ∧ checkEnded id env2 s1 = Ok (ended, s2)
    ∧ plainBool (fhe s2) ended
      = (((if plain (fhe s) (highestBid (auctionAt s id)) <? v
           then uint64 (block_timestamp env)
           else plain (fhe s) (lastBidTime (auctionAt s id))) + 600) mod 2 ^ 64
         <=? uint64 (block_timestamp env2)).
Proof.
  intros s Hc Hv. pose proof (reachable_inv this verify txs) as I. fold s in I.
  destruct (bid_returns this verify id ext proof env s v I Hc Hv) as (h & s1 & R & P).
  pose proof (bid_inv this _ _ _ _ _ _ I Hc P) as I1.
  destruct (checkEnded_flag id env2 s1 I1 (bp_created _ _ _ _ _ _ _ P))
    as (e & s2 & R2 & B).
  exists h, s1, e, s2. split; [done|]. split; [done|]. rewrite B.
  pose proof (bp_leader _ _ _ _ _ _ _ P) as L. unfold leader in L.
  destruct (plain (fhe s) (highestBid (auctionAt s id)) <? v);
    by injection L as _ _ ->.
Qed.

(** X8. The timeout is advisory. In a reachable state where [checkEnded] has
    just returned a flag standing for true, a strictly greater bid sent in
    that same block is still evaluated and takes the lead, and a further
    [checkEnded] in that block then returns a flag standing for false
    (provided the block time plus 600 fits 64 bits): a late bid reopens the
    auction. *)
Theorem late_bid_reopens txs id env ended s1 ext proof v :
  let s := run this verify txs init in
  checkEnded id env s = Ok (ended, s1) →
  plainBool (fhe s1) ended = true →
  verify (msg_sender env) ext proof = Some v →
  plain (fhe s) (highestBid (auctionAt s id)) < v →
  uint64 (block_timestamp env) + 600 < 2 ^ 64 →
  ∃ isHighest s2 ended' s3,
    bid this verify id ext proof env s1 = Ok (isHighest, s2)
    ∧ leader s2 id = (v, msg_sender env, uint64 (block_timestamp env))
    ∧ checkEnded id env s2 = Ok (ended', s3)
    ∧ plainBool (fhe s3) ended' = false.
Proof.
  intros s R Hend Hv Hlt Hfit.
  pose proof (reachable_inv this verify txs) as I. fold s in I.
  destruct (checkEnded_inv id env s ended s1 I R) as (Hc & d & P).
  pose proof (check_inv _ _ _ _ _ I P) as I1.
  assert (E : auctionAt s1 id = auctionAt s id)
    by (apply auctionAt_same; by rewrite (ce_auctions _ _ _ _ _ P)).
  assert (Hc1 : created (auctionAt s1 id) = true) by (by rewrite E).
  destruct (inv_issued s I id) as (_ & I1' & _).
  destruct (bid_returns this verify id ext proof env s1 v I1 Hc1 Hv)
    as (h & s2 & R2 & Q).
  pose proof (bp_leader _ _ _ _ _ _ _ Q) as L.
  rewrite E, (extends_plain (fhe s) (fhe s1)) in L
    by (done || apply (ce_extends _ _ _ _ _ P)).
  destruct (Z.ltb_spec (plain (fhe s) (highestBid (auctionAt s id))) v); [|lia].
  pose proof (bid_inv this _ _ _ _ _ _ I1 Hc1 Q) as I2.
  destruct (checkEnded_flag id env s2 I2 (bp_created _ _ _ _ _ _ _ Q))
    as (e' & s3 & R3 & B).
  exists h, s2, e', s3. repeat split; try done.
  rewrite B. unfold leader in L. injection L as _ _ ->.
  pose proof (uint64_range (block_timestamp env)).
  rewrite Z.mod_small by lia. apply Z.leb_gt. lia.
Qed.

(** X9. In every reachable state, right after a bid returns, the two getters
    hand its sender the current [highestBid] and [highestBidder] handles
    without changing the state, the sender holds a grant on both and on the
    returned flag, and if the flag stands for true the bidder handle stands
    for the sender and the bid handle for a value above the previous
    leader. *)
Theorem bidder_can_read txs id ext proof env isHighest s1 :
  let s := run this verify txs init in
  bid this verify id ext proof env s = Ok (isHighest, s1) →
  ∃ hb hbr,
    getEncryptedHighestBid id s1 = Ok (hb, s1)
    ∧ getEncryptedHighestBidder id s1 = Ok (hbr, s1)
    ∧ (hb, msg_sender env) ∈ acl (fhe s1)
    ∧ (hbr, msg_sender env) ∈ acl (fhe s1)
    ∧ (isHighest, msg_sender env) ∈ acl (fhe s1)
    ∧ (plainBool (fhe s1) isHighest = true →
       plain (fhe s1) hbr = msg_sender env
       ∧ plain (fhe s) (highestBid (auctionAt s id)) < plain (fhe s1) hb).
Proof.
  intros s R. pose proof (reachable_inv this verify txs) as I. fold s in I.
  destruct (bid_effect this verify _ _ _ _ _ _ _ I R) as (v & Hc & Hv & P).
  pose proof (bp_created _ _ _ _ _ _ _ P) as C1.
  exists (highestBid (auctionAt s1 id)), (highestBidder (auctionAt s1 id)).
  destruct (bp_acl_caller _ _ _ _ _ _ _ P) as (G0 & G1 & G2 & _).
  split; [by apply getEncryptedHighestBid_present|].
  split; [by apply getEncryptedHighestBidder_present|].
  repeat split; try done.
  - rewrite (bp_flag _ _ _ _ _ _ _ P) in H.
    pose proof (bp_leader _ _ _ _ _ _ _ P) as L. rewrite H in L.
    unfold leader in L. by injection L as _ -> _.
  - rewrite (bp_flag _ _ _ _ _ _ _ P) in H.
    pose proof (bp_leader _ _ _ _ _ _ _ P) as L. rewrite H in L.
    unfold leader in L. injection L as -> _ _. by apply Z.ltb_lt.
Qed.

(** X11. In every reachable state, once [checkEnded] has returned a flag
    standing for true, a later [checkEnded] at a time not earlier returns
    true as well, as long as no call came in between, the deadline did not
    wrap and both times fit 64 bits. *)
Theorem ended_stays_ended txs id env1 env2 ended1 s1 :
  let s := run this verify txs init in
  checkEnded id env1 s = Ok (ended1, s1) →
  plainBool (fhe s1) ended1 = true →
  plain (fhe s) (lastBidTime (auctionAt s id)) + 600 < 2 ^ 64 →
  0 ≤ block_timestamp env1 ≤ block_timestamp env2 →
  block_timestamp env2 < 2 ^ 64 →
  ∃ ended2 s2,
    checkEnded id env2 s1 = Ok (ended2, s2)
    ∧ plainBool (fhe s2) ended2 = true.
Proof.
  intros s R Hend Hfit Hle Hlt.
  pose proof (reachable_inv this verify txs) as I. fold s in I.
  destruct (checkEnded_inv id env1 s ended1 s1 I R) as (Hc & d & P).
  pose proof (check_inv _ _ _ _ _ I P) as I1.
  assert (E : auctionAt s1 id = auctionAt s id)
    by (apply auctionAt_same; by rewrite (ce_auctions _ _ _ _ _ P)).
  assert (Hc1 : created (auctionAt s1 id) = true) by (by rewrite E).
  destruct (inv_issued s I id) as (_ & _ & _ & I3).
  pose proof (inv_time s I id) as T.
  destruct (checkEnded_flag id env2 s1 I1 Hc1) as (e2 & s2 & R2 & B2).
  exists e2, s2. split; [done|]. rewrite B2, E.
  rewrite (extends_plain (fhe s) (fhe s1)) by (done || apply (ce_extends _ _ _ _ _ P)).
  pose proof (ce_ended _ _ _ _ _ P) as B. pose proof (ce_deadline _ _ _ _ _ P) as D.
  cbn [fst snd] in B, D. rewrite B, D in Hend.
  rewrite Z.mod_small in Hend |- * by lia.
  rewrite uint64_small in Hend |- * by lia.
  apply Z.leb_le in Hend. apply Z.leb_le. lia.
Qed.

End Calls.

End Behaviour.

(** ** The further properties at concrete inputs *)

Module BehaviourInstances.

Import FHE FHEAuction Specs Observations Leader Scenario Behaviour.

Abbreviation lateEnv := (mkEnv bob (T0 + 700)).

Abbreviation afterCheck :=
  (run this verify ((widget ++ bids) ++ [(lateEnv, CheckEnded 1)]) init).

Lemma info_is_permanent_witness :
  createAuction this "Widget" 100 (mkEnv alice T0) (run this verify [] init)
  = Ok (1, afterCreate)
  ∧ getAuctionInfo 1 (run this verify bids afterCreate)
    = Ok (("Widget", T0), run this verify bids afterCreate).
Proof.
  assert (R : createAuction this "Widget" 100 (mkEnv alice T0)
                (run this verify [] init) = Ok (1, afterCreate))
    by (vm_compute; reflexivity).
  split; [exact R|].
  exact (proj1 (info_is_permanent this verify [] (mkEnv alice T0)
                  "Widget" 100 1 afterCreate bids R)).
Defined.


Lemma leader_readers_witness :
  created (auctionAt afterBids 1) = true
  ∧ ((highestBid (auctionAt afterBids 1), alice) ∈ acl (fhe afterBids) → False).
Proof.
  assert (C : created (auctionAt afterBids 1) = true) by (vm_compute; reflexivity).
  split; [exact C|]. intros Hin.
  destruct (proj1 (proj2 (leader_readers this verify (widget ++ bids) 1 alice C))
              (or_introl Hin)) as [E|E]; vm_compute in E; discriminate E.
Defined.

Lemma highest_bid_never_falls_witness :
  created (auctionAt afterCreate 1) = true
  ∧ plain (fhe afterCreate) (highestBid (auctionAt afterCreate 1))
    ≤ plain (fhe (transact this verify firstBid afterCreate))
            (highestBid (auctionAt (transact this verify firstBid afterCreate) 1)).
Proof.
  assert (C : created (auctionAt afterCreate 1) = true) by (vm_compute; reflexivity).
  split; [exact C|].
  exact (proj2 (highest_bid_never_falls this verify widget firstBid 1 C)).
Defined.

Lemma bid_moves_deadline_witness :
  created (auctionAt afterCreate 1) = true
  ∧ verify alice 150 [1] = Some 150
  ∧ ∃ isHighest s1 ended s2,
      bid this verify 1 150 [1] (mkEnv alice (T0 + 10)) afterCreate
      = Ok (isHighest, s1)
      ∧ checkEnded 1 (mkEnv bob (T0 + 100)) s1 = Ok (ended, s2).
Proof.
  assert (C : created (auctionAt afterCreate 1) = true) by (vm_compute; reflexivity).
  assert (V : verify alice 150 [1] = Some 150) by reflexivity.
  split; [exact C|]. split; [exact V|].
  destruct (bid_moves_deadline this verify widget 1 150 [1] (mkEnv alice (T0 + 10))
              150 (mkEnv bob (T0 + 100)) C V) as (h & s1 & e & s2 & R1 & R2 & _).
  exists h, s1, e, s2. split; [exact R1 | exact R2].
Defined.

Lemma late_bid_reopens_witness :
  checkEnded 1 lateEnv afterBids = Ok (28%nat, afterCheck)
  ∧ plainBool (fhe afterCheck) 28%nat = true
  ∧ ∃ isHighest s2 ended' s3,
      bid this verify 1 300 [1] lateEnv afterCheck = Ok (isHighest, s2)
      ∧ leader s2 1 = (300, msg_sender lateEnv, uint64 (block_timestamp lateEnv))
      ∧ checkEnded 1 lateEnv s2 = Ok (ended', s3)
      ∧ plainBool (fhe s3) ended' = false.
Proof.
  assert (R : checkEnded 1 lateEnv afterBids = Ok (28%nat, afterCheck))
    by (vm_compute; reflexivity).
  assert (E : plainBool (fhe afterCheck) 28%nat = true) by (vm_compute; reflexivity).
  assert (V : verify (msg_sender lateEnv) 300 [1] = Some 300) by reflexivity.
  assert (L : plain (fhe afterBids) (highestBid (auctionAt afterBids 1)) < 300)
    by (vm_compute; reflexivity).
  assert (F : uint64 (block_timestamp lateEnv) + 600 < 2 ^ 64)
    by (vm_compute; reflexivity).
  split; [exact R|]. split; [exact E|].
  exact (late_bid_reopens this verify (widget ++ bids) 1 lateEnv 28%nat afterCheck
           300 [1] 300 R E V L F).
Defined.

Lemma bidder_can_read_witness :
  bid this verify 1 150 [1] (mkEnv alice (T0 + 10)) afterCreate
  = Ok (5%nat, afterFirstBid)
  ∧ ∃ hb hbr,
      getEncryptedHighestBid 1 afterFirstBid = Ok (hb, afterFirstBid)
      ∧ getEncryptedHighestBidder 1 afterFirstBid = Ok (hbr, afterFirstBid)
      ∧ (hb, alice) ∈ acl (fhe afterFirstBid).
Proof.
  assert (R : bid this verify 1 150 [1] (mkEnv alice (T0 + 10)) afterCreate
              = Ok (5%nat, afterFirstBid)) by (vm_compute; reflexivity).
  split; [exact R|].
  destruct (bidder_can_read this verify widget 1 150 [1] (mkEnv alice (T0 + 10))
              5%nat afterFirstBid R) as (hb & hbr & G1 & G2 & A1 & _).
  exists hb, hbr. split; [exact G1|]. split; [exact G2 | exact A1].
Defined.

Lemma ended_stays_ended_witness :
  checkEnded 1 lateEnv afterBids = Ok (28%nat, afterCheck)
  ∧ plainBool (fhe afterCheck) 28%nat = true
  ∧ ∃ ended2 s2,
      checkEnded 1 (mkEnv alice (T0 + 800)) afterCheck = Ok (ended2, s2)
      ∧ plainBool (fhe s2) ended2 = true.
Proof.
  assert (R : checkEnded 1 lateEnv afterBids = Ok (28%nat, afterCheck))
    by (vm_compute; reflexivity).
  assert (E : plainBool (fhe afterCheck) 28%nat = true) by (vm_compute; reflexivity).
  assert (F : plain (fhe afterBids) (lastBidTime (auctionAt afterBids 1)) + 600 < 2 ^ 64)
    by (vm_compute; reflexivity).
  assert (O : 0 ≤ block_timestamp lateEnv ≤ block_timestamp (mkEnv alice (T0 + 800)))
    by (cbn; unfold T0; lia).
  assert (B : block_timestamp (mkEnv alice (T0 + 800)) < 2 ^ 64)
    by (vm_compute; reflexivity).
  split; [exact R|]. split; [exact E|].
  exact (ended_stays_ended this verify (widget ++ bids) 1 lateEnv
           (mkEnv alice (T0 + 800)) 28%nat afterCheck R E F O B).
Defined.

End BehaviourInstances.
